(** * DynamoDB item-count publisher

    A shallow embedding of
    [infra/terraform/lambdas/dynamodb_itemcount_publisher.py] and the
    properties of its collect-and-publish pipeline.

    The Lambda reads the [TABLES] and [NAMESPACE] environment variables,
    counts the items of every configured table with a paginated
    [Scan Select=COUNT] (falling back to a single [Scan]), and publishes
    one [ItemCount] datum per table to CloudWatch, twenty at a time. *)

From Stdlib Require Import String Ascii NArith ZArith Arith Bool List Lia.
Import ListNotations.

Set Implicit Arguments.

(** ** Python strings *)

(** A Python [str] is a sequence of Unicode code points. *)
Module Py.

Definition char := N.
Definition str := list char.

(** A string literal of the source. *)
Definition lit (s : string) : str :=
  map N_of_ascii (list_ascii_of_string s).

Definition char_eqb : char -> char -> bool := N.eqb.

Fixpoint str_eqb (a b : str) : bool :=
  match a, b with
  | [], [] => true
  | x :: a', y :: b' => char_eqb x y && str_eqb a' b'
  | _, _ => false
  end.

(** [c.isspace()] for a single code point: the table
    [_PyUnicode_IsWhitespace] of CPython. *)
Definition isspace (c : char) : bool :=
  ((9 <=? c) && (c <=? 13)            (* \t \n \v \f \r *)
   || (28 <=? c) && (c <=? 31)        (* FS GS RS US *)
   || (c =? 32)                       (* space *)
   || (c =? 133) || (c =? 160)        (* NEL, NBSP *)
   || (c =? 5760)                     (* U+1680 *)
   || (8192 <=? c) && (c <=? 8202)    (* U+2000 .. U+200A *)
   || (c =? 8232) || (c =? 8233)      (* U+2028, U+2029 *)
   || (c =? 8239) || (c =? 8287)      (* U+202F, U+205F *)
   || (c =? 12288))%N.                (* U+3000 *)

(** [s.lstrip()]. *)
Fixpoint lstrip (s : str) : str :=
  match s with
  | [] => []
  | c :: s' => if isspace c then lstrip s' else s
  end.

(** [s.rstrip()]. *)
Definition rstrip (s : str) : str := rev (lstrip (rev s)).

(** [s.strip()]: leading and trailing whitespace removed. *)
Definition strip (s : str) : str := rstrip (lstrip s).

(** [s.split(sep)] for a one-character separator: the fields between
    the separators, in order; never the empty list. *)
Fixpoint split (sep : char) (s : str) : list str :=
  match s with
  | [] => [[]]
  | c :: s' =>
      if char_eqb c sep then [] :: split sep s'
      else match split sep s' with
           | field :: fields => (c :: field) :: fields
           | [] => [[c]]
           end
  end.

(** Truth value of a string or a list: empty is false. *)
Definition truthy {A} (l : list A) : bool :=
  match l with [] => false | _ :: _ => true end.

(** [a == b] on lists of strings. *)
Fixpoint list_str_eqb (a b : list str) : bool :=
  match a, b with
  | [], [] => true
  | x :: a', y :: b' => str_eqb x y && list_str_eqb a' b'
  | _, _ => false
  end.

(** [range(start, stop, step)] for a positive step: CPython computes
    the length [(stop - start + step - 1) // step] and yields
    [start + k * step]. *)
Definition range (start stop step : nat) : list nat :=
  map (fun k => start + k * step)
      (seq 0 ((stop - start + step - 1) / step)).

(** [l[i:j]] for [0 <= i <= j]. *)
Definition slice {A} (l : list A) (i j : nat) : list A :=
  firstn (j - i) (skipn i l).

Definition comma : char := 44%N.

End Py.

Import Py.
Arguments lit _%_string : simpl never.

(** ** Data *)

(** One page of a [Scan] response, or the response of a single [Scan]:
    a dict of which only the key ['Count'] is read; it holds an integer
    when present. *)
Record Page := { Count : option Z }.

(** [page.get('Count', default)]. *)
Definition get_Count (page : Page) (default : Z) : Z :=
  match Count page with
  | Some c => c
  | None => default
  end.

(** [int(x)] on an integer. *)
Definition int (x : Z) : Z := x.

Record Dimension := { Name : str; DimValue : str }.

(** An element of [MetricData] as the source builds it. *)
Record MetricDatum := {
  MetricName : str;
  Dimensions : list Dimension;
  Value : Z;
  Unit : str
}.

(** The dict returned by the handler. *)
Definition Response := list (str * str).

(** ** Process configuration *)

(** [os.environ]. *)
Definition Environ := string -> option str.

(** [os.environ.get(key, default)]. *)
Definition environ_get (environ : Environ) (key : string) (default : str) : str :=
  match environ key with
  | Some v => v
  | None => default
  end.

Definition TABLES (environ : Environ) : list str :=
  split comma (environ_get environ "TABLES" (lit "")).

Definition NAMESPACE (environ : Environ) : str :=
  environ_get environ "NAMESPACE" (lit "examapp/DynamoDB").

(** ** The two remote services *)

(** The clients [_dynamodb] and [_cloudwatch].  [World] is whatever state
    the services and the network are in, [Exception] what a failed call
    raises: an instance of Python's [Exception], which is what the
    handlers of the source catch.  Every operation
    answers from the current world and moves it on, so an answer may
    depend on every call made before.

    - [paginate_scan] is [get_paginator('scan').paginate(TableName=t,
      Select='COUNT')] iterated to its end: the pages it yields and,
      when the iteration stops on an error, the exception raised after
      them.  A table has finitely many pages, so the iteration ends.
    - [scan] is [scan(TableName=t, Select='COUNT')].
    - [put_metric_data] is [put_metric_data(Namespace=ns,
      MetricData=batch)]; [Some e] when it raises. *)
Record Clients (World Exception : Type) := {
  paginate_scan : str -> World -> list Page * option Exception * World;
  scan : str -> World -> (Exception + Page) * World;
  put_metric_data : str -> list MetricDatum -> World -> option Exception * World
}.

(** What the logger is given. *)
Inductive LogRecord (Exception : Type) :=
| NoTablesConfigured
    (* log.info("No tables configured in TABLES env var") *)
| TableScanCount (table : str) (count : Z)
    (* log.info("Table %s scan count=%d", table, count) *)
| ScanCountFailed (table : str) (e : Exception)
    (* log.exception("scan_count failed for %s: %s", table, e) *)
| PutMetricDataFailed (e : Exception).
    (* log.exception("PutMetricData failed: %s", e) *)

Arguments NoTablesConfigured {Exception}.
Arguments TableScanCount {Exception}.

(** What a run does, in the order it does it: the calls to the remote
    store and to the metrics sink with their answers, and the log
    records. *)
Inductive Event (Exception : Type) :=
| DynamoDBPaginateScan (TableName : str) (pages : list Page) (raised : option Exception)
| DynamoDBScan (TableName : str) (answer : Exception + Page)
| CloudWatchPutMetricData (Namespace : str) (MetricData : list MetricDatum)
                          (raised : option Exception)
| Log (record : LogRecord Exception).

(** ** Computations that call the services and may raise *)

Record Outcome (World Exception A : Type) := {
  result : Exception + A;       (* [inl e]: [e] was raised *)
  world : World;
  trace : list (Event Exception)
}.

Definition M (World Exception A : Type) : Type :=
  World -> Outcome World Exception A.

Section Monad.
Context {World Exception : Type}.
Local Abbreviation M := (M World Exception).

Definition ret {A} (a : A) : M A :=
  fun w => {| result := inr a; world := w; trace := [] |}.

Definition raise {A} (e : Exception) : M A :=
  fun w => {| result := inl e; world := w; trace := [] |}.

(** [events] happened before [o]. *)
Definition after {A} (events : list (Event Exception))
           (o : Outcome World Exception A) : Outcome World Exception A :=
  {| result := result o; world := world o; trace := events ++ trace o |}.

Definition bind {A B} (m : M A) (k : A -> M B) : M B :=
  fun w =>
    let o := m w in
    match result o with
    | inl e => {| result := inl e; world := world o; trace := trace o |}
    | inr a => after (trace o) (k a (world o))
    end.

(** [try: m  except Exception as e: handler e]. *)
Definition try_except {A} (m : M A) (handler : Exception -> M A) : M A :=
  fun w =>
    let o := m w in
    match result o with
    | inl e => after (trace o) (handler e (world o))
    | inr a => o
    end.

Definition log (record : LogRecord Exception) : M unit :=
  fun w => {| result := inr tt; world := w; trace := [Log record] |}.

End Monad.

Declare Scope py_scope.
Delimit Scope py_scope with py.
Notation "x <- m ;; k" := (bind m (fun x => k))
  (at level 61, m at next level, right associativity) : py_scope.
Notation "m ;; k" := (bind m (fun _ => k))
  (at level 61, right associativity) : py_scope.
Open Scope py_scope.

(** ** The program *)

Section Publisher.
Context {World Exception : Type}.
Variable clients : Clients World Exception.
Variable environ : Environ.

Local Abbreviation M := (M World Exception).

(** [_dynamodb.scan(TableName=table_name, Select='COUNT')]. *)
Definition dynamodb_scan (table_name : str) : M Page :=
  fun w =>
    let '(answer, w') := scan clients table_name w in
    {| result := answer; world := w';
       trace := [DynamoDBScan table_name answer] |}.

(** [_cloudwatch.put_metric_data(Namespace=ns, MetricData=batch)]. *)
Definition cloudwatch_put_metric_data
           (ns : str) (batch : list MetricDatum) : M unit :=
  fun w =>
    let '(raised, w') := put_metric_data clients ns batch w in
    {| result := match raised with Some e => inl e | None => inr tt end;
       world := w';
       trace := [CloudWatchPutMetricData ns batch raised] |}.

(** [scan_count(table_name)].  The loop adds every page it is given to
    [total]; when the iteration raises, the handler overwrites [total]
    with the single scan's count, and an exception of that scan leaves
    the function. *)
Definition scan_count (table_name : str) : M Z :=
  fun w =>
    let total := 0%Z in
    let '(pages, raised, w1) := paginate_scan clients table_name w in
    let total :=
      fold_left (fun total page => (total + int (get_Count page 0))%Z)
                pages total in
    after [DynamoDBPaginateScan table_name pages raised]
      match raised with
      | None => ret total w1
      | Some _ =>
          (resp <- dynamodb_scan table_name ;;
           let total := int (get_Count resp 0) in
           ret total) w1
      end.

(** The datum appended for [table]. *)
Definition metric_datum (table : str) (count : Z) : MetricDatum :=
  {| MetricName := lit "ItemCount";
     Dimensions := [{| Name := lit "TableName"; DimValue := table |}];
     Value := count;
     Unit := lit "Count" |}.

(** The first loop of [publish_counts] over the remaining [tables],
    [metric_data] being the list built so far. *)
Fixpoint collect (tables : list str) (metric_data : list MetricDatum)
  : M (list MetricDatum) :=
  match tables with
  | [] => ret metric_data
  | table :: tables' =>
      let table := strip table in
      if negb (truthy table) then collect tables' metric_data
      else
        metric_data <-
          try_except
            (count <- scan_count table ;;
             log (TableScanCount table count) ;;
             ret (metric_data ++ [metric_datum table count]))
            (fun e =>
               log (ScanCountFailed table e) ;;
               ret metric_data) ;;
        collect tables' metric_data
  end.

(** The body of the second loop, for the start indices [starts]. *)
Fixpoint put_batches (starts : list nat) (metric_data : list MetricDatum)
  : M unit :=
  match starts with
  | [] => ret tt
  | i :: starts' =>
      let batch := slice metric_data i (i + 20) in
      cloudwatch_put_metric_data (NAMESPACE environ) batch ;;
      put_batches starts' metric_data
  end.

(** The publishing half of [publish_counts]. *)
Definition publish (metric_data : list MetricDatum) : M bool :=
  try_except
    (put_batches (range 0 (length metric_data) 20) metric_data ;;
     ret true)
    (fun e =>
       log (PutMetricDataFailed e) ;;
       ret false).

Definition publish_counts : M bool :=
  metric_data <- collect (TABLES environ) [] ;;
  publish metric_data.

Definition lambda_handler {E C : Type} (event : E) (context : C)
  : M Response :=
  if negb (truthy (TABLES environ))
     || list_str_eqb (TABLES environ) [lit ""]
  then
    log NoTablesConfigured ;;
    ret [(lit "status", lit "no-tables")]
  else
    ok <- publish_counts ;;
    ret [(lit "status", if ok then lit "ok" else lit "error")].

End Publisher.

(** ** Scripted services, for running the program *)

Module Mock.

(** An error of the SDK, by its code. *)
Inductive BotoError := ClientError (code : string).

(** The world counts the [put_metric_data] calls made so far, so that a
    script can fail a chosen one. *)
Definition World := nat.

Definition clients
           (pages_of : str -> list Page * option BotoError)
           (scan_of : str -> BotoError + Page)
           (put_nth : nat -> option BotoError)
  : Clients World BotoError :=
  {| paginate_scan := fun t w => (pages_of t, w);
     scan := fun t w => (scan_of t, w);
     put_metric_data := fun _ _ w => (put_nth w, S w) |}.

Definition page (c : Z) : Page := {| Count := Some c |}.

(** The environment with [TABLES] set to [tables] and nothing else. *)
Definition environ (tables : string) : Environ :=
  fun key => if String.eqb key "TABLES" then Some (lit tables) else None.

Definition unset : Environ := fun _ => None.

Definition throttled : BotoError := ClientError "ThrottlingException".
Definition not_found : BotoError := ClientError "ResourceNotFoundException".

(** Every table has one page of [c] items. *)
Definition healthy (c : Z) : str -> list Page * option BotoError :=
  fun _ => ([page c], None).

(** Every paginated scan fails before its first page. *)
Definition no_pages : str -> list Page * option BotoError :=
  fun _ => ([], Some throttled).

Definition scan_fails : str -> BotoError + Page := fun _ => inl not_found.
Definition scan_gives (c : Z) : str -> BotoError + Page := fun _ => inr (page c).

Definition put_ok : nat -> option BotoError := fun _ => None.
Definition put_fails_at (k : nat) : nat -> option BotoError :=
  fun n => if Nat.eqb n k then Some throttled else None.

(** "Users" has two pages, every other table one. *)
Definition users_orders (t : str) : list Page * option BotoError :=
  if str_eqb t (lit "Users") then ([page 1000; page 532], None)
  else ([page 47], None).

(** The paginated scan of "B" fails after a first page. *)
Definition b_breaks (t : str) : list Page * option BotoError :=
  if str_eqb t (lit "B") then ([page 7], Some throttled)
  else ([page 5], None).

(** Both queries of every table fail; the metrics sink accepts. *)
Definition store_down : Clients World BotoError :=
  clients no_pages scan_fails put_ok.

(** Only "B" is broken: its pagination fails, and so does its scan. *)
Definition b_down : Clients World BotoError :=
  clients b_breaks scan_fails put_ok.

(** The pagination of "B" fails and its single scan counts 9 items. *)
Definition b_degraded : Clients World BotoError :=
  clients b_breaks (scan_gives 9) put_ok.

(** Every count succeeds; the [k]-th submission is refused. *)
Definition sink_refuses (k : nat) : Clients World BotoError :=
  clients (healthy 1) scan_fails (put_fails_at k).

(** Every count succeeds and every submission is accepted. *)
Definition all_well : Clients World BotoError :=
  clients (healthy 1) scan_fails put_ok.

Definition twenty_one : string := "A,B,C,D,E,F,G,H,I,J,K,L,M,N,O,P,Q,R,S,T,U".

Definition point (table : string) (count : Z) : MetricDatum :=
  {| MetricName := lit "ItemCount";
     Dimensions := [{| Name := lit "TableName"; DimValue := lit table |}];
     Value := count;
     Unit := lit "Count" |}.

End Mock.

Unset Implicit Arguments.

(** ** Reading a run *)

(** The count of one page, a missing count being 0. *)
Definition page_count (p : Page) : Z :=
  match Count p with
  | Some c => c
  | None => 0%Z
  end.

(** The sum of the per-page counts over all pages. *)
Definition sum_of_page_counts (pages : list Page) : Z :=
  fold_right Z.add 0%Z (map page_count pages).

(** [ceil (n / d)]. *)
Definition ceil_div (n d : nat) : nat := (n + d - 1) / d.

(** A table list that is empty or made of whitespace and commas only. *)
Definition blank_only (s : str) : Prop :=
  Forall (fun c => isspace c = true \/ c = comma) s.

(** The batches the second loop of [publish_counts] cuts. *)
Definition batches (metric_data : list MetricDatum) : list (list MetricDatum) :=
  map (fun i => slice metric_data i (i + 20))
      (range 0 (length metric_data) 20).

(** [sep.join(fields)], the inverse of [split]. *)
Fixpoint join (sep : char) (fields : list str) : str :=
  match fields with
  | [] => []
  | [field] => field
  | field :: fields' => field ++ sep :: join sep fields'
  end.

(** The entries of a table list the loop does not skip: stripped, the
    blank ones dropped, order and duplicates kept. *)
Definition nonblank (tables : list str) : list str :=
  filter (fun table => truthy table) (map strip tables).

(** A name that is not empty and neither begins nor ends with
    whitespace. *)
Definition trimmed (t : str) : Prop :=
  (exists c r, t = c :: r /\ isspace c = false) /\
  (exists r d, t = r ++ [d] /\ isspace d = false).

Section Observations.
Context {World Exception : Type}.
Variable clients : Clients World Exception.
Variable environ : Environ.

(** The calls to the remote store, in order. *)
Definition store_calls (t : list (Event Exception)) : list (Event Exception) :=
  filter (fun ev => match ev with
                    | DynamoDBPaginateScan _ _ _ | DynamoDBScan _ _ => true
                    | _ => false
                    end) t.

(** The calls to the metrics sink, in order: namespace, batch, and the
    exception when the call raised. *)
Fixpoint submissions (t : list (Event Exception))
  : list (str * list MetricDatum * option Exception) :=
  match t with
  | [] => []
  | CloudWatchPutMetricData ns batch raised :: t' =>
      (ns, batch, raised) :: submissions t'
  | _ :: t' => submissions t'
  end.

(** The batches handed to the metrics sink, in order. *)
Definition batches_sent (t : list (Event Exception)) : list (list MetricDatum) :=
  map (fun s => snd (fst s)) (submissions t).

Definition failed (s : str * list MetricDatum * option Exception) : Prop :=
  snd s <> None.

Definition accepted (s : str * list MetricDatum * option Exception) : Prop :=
  snd s = None.

(** The log records, in order. *)
Fixpoint log_records (t : list (Event Exception)) : list (LogRecord Exception) :=
  match t with
  | [] => []
  | Log r :: t' => r :: log_records t'
  | _ :: t' => log_records t'
  end.

(** A call to the metrics sink, as the trace shows it. *)
Definition put_event (s : str * list MetricDatum * option Exception)
  : Event Exception :=
  CloudWatchPutMetricData (fst (fst s)) (snd (fst s)) (snd s).

(** The data points a run of the loop adds. *)
Definition collected (tables : list str) (w : World) : list MetricDatum :=
  match result (collect clients tables [] w) with
  | inr added => added
  | inl _ => []
  end.

(** The number of non-blank entries of [tables] whose count succeeds,
    each counted in the world its turn finds. *)
Fixpoint successful_table_count (tables : list str) (w : World) : nat :=
  match tables with
  | [] => 0
  | table :: tables' =>
      if negb (truthy (strip table)) then successful_table_count tables' w
      else
        let o := scan_count clients (strip table) w in
        match result o with
        | inr _ => 1 + successful_table_count tables' (world o)
        | inl _ => successful_table_count tables' (world o)
        end
  end.

(** The answers of the remote store do not depend on what was called
    before. *)
Definition answers_ignore_world : Prop :=
  forall (t : str) (w w' : World),
    fst (paginate_scan clients t w) = fst (paginate_scan clients t w') /\
    fst (scan clients t w) = fst (scan clients t w').

(** The paginated scans, in order: the table, and the exception when
    the iteration raised. *)
Fixpoint paginated (t : list (Event Exception)) : list (str * option Exception) :=
  match t with
  | [] => []
  | DynamoDBPaginateScan table _ raised :: t' => (table, raised) :: paginated t'
  | _ :: t' => paginated t'
  end.

(** The tables of the single scans, in order. *)
Fixpoint scanned (t : list (Event Exception)) : list str :=
  match t with
  | [] => []
  | DynamoDBScan table _ :: t' => table :: scanned t'
  | _ :: t' => scanned t'
  end.

(** What the collecting loop logs, in order: the table, with its count
    when the count succeeded. *)
Fixpoint table_records (t : list (Event Exception)) : list (str * option Z) :=
  match t with
  | [] => []
  | Log (TableScanCount table count) :: t' =>
      (table, Some count) :: table_records t'
  | Log (ScanCountFailed table _) :: t' => (table, None) :: table_records t'
  | _ :: t' => table_records t'
  end.

(** The data points of the tables logged with a count. *)
Definition points_of (records : list (str * option Z)) : list MetricDatum :=
  flat_map (fun r => match snd r with
                     | Some count => [metric_datum (fst r) count]
                     | None => []
                     end) records.

(** The remote store never reports a negative count. *)
Definition counts_not_negative : Prop :=
  forall (t : str) (w : World),
    Forall (fun p => (0 <= page_count p)%Z)
           (fst (fst (paginate_scan clients t w))) /\
    (forall resp, fst (scan clients t w) = inr resp -> (0 <= page_count resp)%Z).

(** The tables of the paginated scans that raised. *)
Definition raised_for (l : list (str * option Exception)) : list str :=
  map fst (filter (fun p => match snd p with Some _ => true | None => false end) l).

(** The three cases of one iteration. *)
Variant iteration (table : str) (w : World) : Prop :=
| Blank (H : strip table = [])
| Counted (count : Z) (Hne : strip table <> [])
          (H : result (scan_count clients (strip table) w) = inr count)
| Failed (e : Exception) (Hne : strip table <> [])
         (H : result (scan_count clients (strip table) w) = inl e).

(** How the second loop ends: every batch was accepted, or the loop
    stopped at the first batch that was not. *)
Variant put_batches_end (starts : list nat) (metric_data : list MetricDatum)
        (o : Outcome World Exception unit) : Prop :=
| AllAccepted (sent : list (str * list MetricDatum * option Exception))
    (Htrace : trace o = map put_event sent)
    (Hsent : map (fun s => snd (fst s)) sent
             = map (fun i => slice metric_data i (i + 20)) starts)
    (Hacc : Forall accepted sent)
    (Hres : result o = inr tt)
| StoppedAt (k : nat) (sent : list (str * list MetricDatum * option Exception))
    (batch : list MetricDatum) (e : Exception)
    (Hk : k < length starts)
    (Htrace : trace o = map put_event (sent ++ [(NAMESPACE environ, batch, Some e)]))
    (Hsent : map (fun s => snd (fst s)) sent ++ [batch]
             = firstn (S k) (map (fun i => slice metric_data i (i + 20)) starts))
    (Hacc : Forall accepted sent)
    (Hres : result o = inl e).

(** How [publish] ends: [True] after every batch of the list was
    accepted, [False] after the first batch that was not, which is the
    last call made and is followed by the log record only. *)
Variant publish_end (metric_data : list MetricDatum)
        (o : Outcome World Exception bool) : Prop :=
| Published (sent : list (str * list MetricDatum * option Exception))
    (Htrace : trace o = map put_event sent)
    (Hsent : map (fun s => snd (fst s)) sent = batches metric_data)
    (Hacc : Forall accepted sent)
    (Hres : result o = inr true)
| Aborted (k : nat) (sent : list (str * list MetricDatum * option Exception))
    (batch : list MetricDatum) (e : Exception)
    (Hk : k < length (batches metric_data))
    (Htrace : trace o
              = map put_event sent
                ++ [CloudWatchPutMetricData (NAMESPACE environ) batch (Some e);
                    Log (PutMetricDataFailed e)])
    (Hsent : map (fun s => snd (fst s)) sent ++ [batch]
             = firstn (S k) (batches metric_data))
    (Hacc : Forall accepted sent)
    (Hres : result o = inr false).

(** The two ways a run goes: the guard returns, or the tables are
    counted and then the points published. *)
Variant run_phases {E C : Type} (event : E) (context : C) (w : World) : Prop :=
| GuardReturns
    (Hraw : environ_get environ "TABLES" (lit "") = [])
    (Hrun : lambda_handler clients environ event context w
            = {| result := inr [(lit "status", lit "no-tables")];
                 world := w;
                 trace := [Log NoTablesConfigured] |})
| CountsThenPublishes (ok : bool)
    (Hraw : environ_get environ "TABLES" (lit "") <> [])
    (Hrun : lambda_handler clients environ event context w
            = {| result := inr [(lit "status",
                                 if ok then lit "ok" else lit "error")];
                 world := world (publish clients environ
                                   (collected (TABLES environ) w)
                                   (world (collect clients (TABLES environ) [] w)));
                 trace := trace (collect clients (TABLES environ) [] w)
                          ++ trace (publish clients environ
                                      (collected (TABLES environ) w)
                                      (world (collect clients (TABLES environ)
                                                      [] w))) |}).

End Observations.

(** ** Traces *)

Section Traces.
Context {Exception : Type}.

Lemma submissions_app (a b : list (Event Exception)) :
  submissions (a ++ b) = submissions a ++ submissions b.
Proof.
  induction a as [|ev a IH]; [reflexivity|].
  destruct ev; cbn [app submissions]; rewrite IH; reflexivity.
Qed.

End Traces.

(** ** Strings: [split] and [strip] *)

Lemma split_not_nil (sep : char) (s : str) : split sep s <> [].
Proof.
  destruct s as [|c s]; cbn [split]; [discriminate|].
  destruct (char_eqb c sep); [discriminate|].
  destruct (split sep s); discriminate.
Qed.

Lemma split_single_empty (sep : char) (s : str) :
  split sep s = [[]] <-> s = [].
Proof.
  split; [|intros ->; reflexivity].
  destruct s as [|c s]; [reflexivity|]. cbn [split].
  destruct (char_eqb c sep).
  - intros H. injection H as H. now apply split_not_nil in H.
  - destruct (split sep s); discriminate.
Qed.

Lemma str_eqb_eq (a b : str) : str_eqb a b = true <-> a = b.
Proof.
  revert b. induction a as [|x a IH]; destruct b as [|y b]; cbn [str_eqb];
    try (split; (discriminate || reflexivity)).
  unfold char_eqb. rewrite andb_true_iff, N.eqb_eq, IH.
  split; [intros [-> ->]; reflexivity | intros H; injection H; auto].
Qed.

Lemma list_str_eqb_eq (a b : list str) : list_str_eqb a b = true <-> a = b.
Proof.
  revert b. induction a as [|x a IH]; destruct b as [|y b]; cbn [list_str_eqb];
    try (split; (discriminate || reflexivity)).
  rewrite andb_true_iff, str_eqb_eq, IH.
  split; [intros [-> ->]; reflexivity | intros H; injection H; auto].
Qed.

(** The guard of [lambda_handler] holds exactly when the variable is
    unset or empty. *)
Lemma guard_iff_empty (environ : Environ) :
  negb (truthy (TABLES environ)) || list_str_eqb (TABLES environ) [lit ""]
  = negb (truthy (environ_get environ "TABLES" (lit ""))).
Proof.
  unfold TABLES. set (raw := environ_get environ "TABLES" (lit "")).
  destruct (split comma raw) as [|f fs] eqn:E; [now apply split_not_nil in E|].
  cbn [truthy negb orb].
  destruct raw as [|c raw'] eqn:R.
  - cbn in E. injection E as <- <-. reflexivity.
  - cbn [truthy negb].
    destruct (list_str_eqb (f :: fs) [lit ""]) eqn:G; [|reflexivity].
    apply list_str_eqb_eq in G. rewrite G in E.
    apply split_single_empty in E. discriminate.
Qed.

Lemma lstrip_all_space (s : str) :
  Forall (fun c => isspace c = true) s -> lstrip s = [].
Proof.
  induction 1 as [|c s Hc _ IH]; [reflexivity|].
  cbn [lstrip]. now rewrite Hc.
Qed.

Lemma strip_all_space (s : str) :
  Forall (fun c => isspace c = true) s -> strip s = [].
Proof.
  intros H. unfold strip, rstrip. now rewrite (lstrip_all_space _ H).
Qed.

(** The fields of a blank-only string are all whitespace. *)
Lemma split_blank_only (s : str) :
  blank_only s ->
  Forall (Forall (fun c => isspace c = true)) (split comma s).
Proof.
  induction 1 as [|c s Hc _ IH]; cbn [split].
  - repeat constructor.
  - destruct (char_eqb c comma) eqn:E.
    + constructor; [constructor | exact IH].
    + destruct Hc as [Hc | ->]; [|unfold char_eqb in E; now rewrite N.eqb_refl in E].
      destruct (split comma s) as [|f fs]; [repeat constructor; exact Hc|].
      inversion IH; subst. constructor; [constructor|]; assumption.
Qed.

(** ** Counting one table *)

Section Counting.
Context {World Exception : Type}.
Variable clients : Clients World Exception.

(** The loop of [scan_count] computes the sum of the page counts. *)
Lemma total_loop (pages : list Page) (total : Z) :
  fold_left (fun total page => (total + int (get_Count page 0))%Z) pages total
  = (total + sum_of_page_counts pages)%Z.
Proof.
  revert total. induction pages as [|p pages IH]; intros total.
  - cbn. lia.
  - cbn [fold_left]. rewrite IH. unfold sum_of_page_counts.
    cbn [map fold_right]. unfold int, get_Count, page_count. lia.
Qed.

(** The pagination runs to its end: the total is returned. *)
Lemma scan_count_paginated (t : str) (w w1 : World) (pages : list Page) :
  paginate_scan clients t w = (pages, None, w1) ->
  scan_count clients t w
  = {| result := inr (sum_of_page_counts pages); world := w1;
       trace := [DynamoDBPaginateScan t pages None] |}.
Proof.
  intros H. unfold scan_count. rewrite H, total_loop. reflexivity.
Qed.

(** The pagination raises and the single scan answers. *)
Lemma scan_count_fallback (t : str) (w w1 w2 : World) (pages : list Page)
      (e : Exception) (resp : Page) :
  paginate_scan clients t w = (pages, Some e, w1) ->
  scan clients t w1 = (inr resp, w2) ->
  scan_count clients t w
  = {| result := inr (page_count resp); world := w2;
       trace := [DynamoDBPaginateScan t pages (Some e);
                 DynamoDBScan t (inr resp)] |}.
Proof.
  intros H1 H2. unfold scan_count. rewrite H1.
  unfold bind, dynamodb_scan. rewrite H2. reflexivity.
Qed.

(** The pagination raises and the single scan raises too. *)
Lemma scan_count_raises (t : str) (w w1 w2 : World) (pages : list Page)
      (e1 e2 : Exception) :
  paginate_scan clients t w = (pages, Some e1, w1) ->
  scan clients t w1 = (inl e2, w2) ->
  scan_count clients t w
  = {| result := inl e2; world := w2;
       trace := [DynamoDBPaginateScan t pages (Some e1);
                 DynamoDBScan t (inl e2)] |}.
Proof.
  intros H1 H2. unfold scan_count. rewrite H1.
  unfold bind, dynamodb_scan. rewrite H2. reflexivity.
Qed.

(** [scan_count] raises only what the single scan raised, after a
    pagination that raised. *)
Lemma scan_count_raises_inv (t : str) (w : World) (e : Exception) :
  result (scan_count clients t w) = inl e ->
  exists pages e1 w1,
    paginate_scan clients t w = (pages, Some e1, w1) /\
    fst (scan clients t w1) = inl e.
Proof.
  unfold scan_count.
  destruct (paginate_scan clients t w) as [[pages [e1|]] w1]; cbn.
  - unfold bind, dynamodb_scan.
    destruct (scan clients t w1) as [[e2|resp] w2] eqn:Es; cbn; [|discriminate].
    intros H. injection H as ->. exists pages, e1, w1. now rewrite Es.
  - discriminate.
Qed.

(** A count only calls the remote store. *)
Lemma scan_count_trace (t : str) (w : World) :
  submissions (trace (scan_count clients t w)) = [] /\
  log_records (trace (scan_count clients t w)) = [].
Proof.
  unfold scan_count.
  destruct (paginate_scan clients t w) as [[pages [e1|]] w1]; cbn; [|auto].
  unfold bind, dynamodb_scan.
  destruct (scan clients t w1) as [[e2|resp] w2]; cbn; auto.
Qed.

(** ** The collecting loop *)

Lemma after_after {A} (a b : list (Event Exception))
      (o : Outcome World Exception A) :
  after a (after b o) = after (a ++ b) o.
Proof. unfold after. cbn. now rewrite app_assoc. Qed.

Lemma after_nil {A} (o : Outcome World Exception A) : after [] o = o.
Proof. now destruct o. Qed.

Lemma bind_inr {A B} (m : M World Exception A) (k : A -> M World Exception B)
      (w : World) (a : A) :
  result (m w) = inr a ->
  bind m k w = after (trace (m w)) (k a (world (m w))).
Proof. intros H. unfold bind. cbv zeta. now rewrite H. Qed.

Lemma bind_inl {A B} (m : M World Exception A) (k : A -> M World Exception B)
      (w : World) (e : Exception) :
  result (m w) = inl e ->
  bind m k w = {| result := inl e; world := world (m w); trace := trace (m w) |}.
Proof. intros H. unfold bind. cbv zeta. now rewrite H. Qed.

Lemma try_except_inr {A} (m : M World Exception A)
      (handler : Exception -> M World Exception A) (w : World) (a : A) :
  result (m w) = inr a -> try_except m handler w = m w.
Proof. intros H. unfold try_except. cbv zeta. now rewrite H. Qed.

Lemma try_except_inl {A} (m : M World Exception A)
      (handler : Exception -> M World Exception A) (w : World) (e : Exception) :
  result (m w) = inl e ->
  try_except m handler w = after (trace (m w)) (handler e (world (m w))).
Proof. intros H. unfold try_except. cbv zeta. now rewrite H. Qed.

Lemma bind_log {B} (record : LogRecord Exception)
      (k : unit -> M World Exception B) (w : World) :
  bind (log record) k w = after [Log record] (k tt w).
Proof. reflexivity. Qed.

(** A blank entry is skipped. *)
Lemma collect_blank (table : str) (tables : list str)
      (metric_data : list MetricDatum) (w : World) :
  strip table = [] ->
  collect clients (table :: tables) metric_data w
  = collect clients tables metric_data w.
Proof. intros H. cbn [collect]. now rewrite H. Qed.

(** A counted table appends its datum. *)
Lemma collect_counted (table : str) (tables : list str)
      (metric_data : list MetricDatum) (w : World) (count : Z) :
  strip table <> [] ->
  result (scan_count clients (strip table) w) = inr count ->
  collect clients (table :: tables) metric_data w
  = after (trace (scan_count clients (strip table) w)
           ++ [Log (TableScanCount (strip table) count)])
      (collect clients tables
         (metric_data ++ [metric_datum (strip table) count])
         (world (scan_count clients (strip table) w))).
Proof.
  intros Hne Hc. cbn [collect].
  destruct (strip table) as [|c t] eqn:Et; [contradiction|].
  cbn [truthy negb].
  match goal with |- bind (try_except ?m ?h) ?k w = _ =>
    assert (Hm : m w = after (trace (scan_count clients (c :: t) w)
                              ++ [Log (TableScanCount (c :: t) count)])
                         (ret (metric_data ++ [metric_datum (c :: t) count])
                              (world (scan_count clients (c :: t) w))))
  end.
  { rewrite (bind_inr _ _ _ _ Hc). rewrite bind_log.
    now rewrite after_after. }
  rewrite (bind_inr _ _ w (metric_data ++ [metric_datum (c :: t) count])).
  - rewrite (try_except_inr _ _ _ (metric_data ++ [metric_datum (c :: t) count]));
      rewrite Hm; cbn; [now rewrite app_nil_r | reflexivity].
  - rewrite (try_except_inr _ _ _ (metric_data ++ [metric_datum (c :: t) count]));
      rewrite Hm; reflexivity.
Qed.

(** A table whose count raises is logged and leaves the list as it was. *)
Lemma collect_failed (table : str) (tables : list str)
      (metric_data : list MetricDatum) (w : World) (e : Exception) :
  strip table <> [] ->
  result (scan_count clients (strip table) w) = inl e ->
  collect clients (table :: tables) metric_data w
  = after (trace (scan_count clients (strip table) w)
           ++ [Log (ScanCountFailed (strip table) e)])
      (collect clients tables metric_data
         (world (scan_count clients (strip table) w))).
Proof.
  intros Hne Hc. cbn [collect].
  destruct (strip table) as [|c t] eqn:Et; [contradiction|].
  cbn [truthy negb].
  match goal with |- bind (try_except ?m ?h) ?k w = _ =>
    assert (Hm : try_except m h w
                 = after (trace (scan_count clients (c :: t) w)
                          ++ [Log (ScanCountFailed (c :: t) e)])
                     (ret metric_data (world (scan_count clients (c :: t) w))))
  end.
  { rewrite (try_except_inl _ _ _ e).
    - rewrite (bind_inl _ _ _ _ Hc). cbn [trace world].
      rewrite bind_log. now rewrite after_after.
    - now rewrite (bind_inl _ _ _ _ Hc). }
  rewrite (bind_inr _ _ w metric_data); rewrite Hm; cbn;
    [now rewrite app_nil_r | reflexivity].
Qed.

Lemma iteration_cases (table : str) (w : World) :
  iteration clients table w.
Proof.
  destruct (strip table) as [|c t] eqn:Et; [now apply (Blank clients table w)|].
  destruct (result (scan_count clients (strip table) w)) as [e|count] eqn:Er.
  - apply (Failed clients table w e); [rewrite Et; discriminate | exact Er].
  - apply (Counted clients table w count); [rewrite Et; discriminate | exact Er].
Qed.

(** The loop never raises, and only ever appends to the list it is
    given. *)
Lemma collect_appends (tables : list str) (metric_data : list MetricDatum)
      (w : World) :
  exists added,
    result (collect clients tables [] w) = inr added /\
    collect clients tables metric_data w
    = {| result := inr (metric_data ++ added);
         world := world (collect clients tables [] w);
         trace := trace (collect clients tables [] w) |}.
Proof.
  revert metric_data w.
  induction tables as [|table tables IH]; intros metric_data w.
  - exists []. cbn. now rewrite app_nil_r.
  - destruct (iteration_cases table w) as [Hb | count Hne Hc | e Hne Hc].
    + rewrite !collect_blank by exact Hb. apply IH.
    + rewrite !(collect_counted table tables _ w count Hne Hc).
      set (w1 := world (scan_count clients (strip table) w)).
      destruct (IH (metric_data ++ [metric_datum (strip table) count]) w1)
        as (added & Ha & ->).
      destruct (IH ([] ++ [metric_datum (strip table) count]) w1)
        as (added' & Ha' & ->).
      assert (added' = added) by congruence. subst added'.
      exists (metric_datum (strip table) count :: added). cbn.
      split; [reflexivity|]. unfold after; cbn. now rewrite <- app_assoc.
    + rewrite !(collect_failed table tables _ w e Hne Hc).
      set (w1 := world (scan_count clients (strip table) w)).
      destruct (IH metric_data w1) as (added & Ha & ->).
      exists added. unfold after; cbn. now rewrite Ha.
Qed.

Lemma collect_collected (tables : list str) (metric_data : list MetricDatum)
      (w : World) :
  collect clients tables metric_data w
  = {| result := inr (metric_data ++ collected clients tables w);
       world := world (collect clients tables [] w);
       trace := trace (collect clients tables [] w) |}.
Proof.
  destruct (collect_appends tables metric_data w) as (added & Ha & ->).
  unfold collected. now rewrite Ha.
Qed.

End Counting.

(** ** Tables, one after the other *)

Section Collecting.
Context {World Exception : Type}.
Variable clients : Clients World Exception.

Lemma collected_nil (w : World) : collected clients [] w = [].
Proof. reflexivity. Qed.

Lemma collected_blank (table : str) (tables : list str) (w : World) :
  strip table = [] ->
  collected clients (table :: tables) w = collected clients tables w.
Proof. intros H. unfold collected. now rewrite collect_blank. Qed.

Lemma collected_counted (table : str) (tables : list str) (w : World) (count : Z) :
  strip table <> [] ->
  result (scan_count clients (strip table) w) = inr count ->
  collected clients (table :: tables) w
  = metric_datum (strip table) count
    :: collected clients tables (world (scan_count clients (strip table) w)).
Proof.
  intros Hne Hc. unfold collected at 1.
  rewrite (collect_counted clients table tables [] w count Hne Hc).
  rewrite collect_collected. reflexivity.
Qed.

Lemma collected_failed (table : str) (tables : list str) (w : World) (e : Exception) :
  strip table <> [] ->
  result (scan_count clients (strip table) w) = inl e ->
  collected clients (table :: tables) w
  = collected clients tables (world (scan_count clients (strip table) w)).
Proof.
  intros Hne Hc. unfold collected at 1.
  rewrite (collect_failed clients table tables [] w e Hne Hc).
  rewrite collect_collected. reflexivity.
Qed.

(** One data point per successful count. *)
Lemma collected_length (tables : list str) (w : World) :
  length (collected clients tables w)
  = successful_table_count clients tables w.
Proof.
  revert w. induction tables as [|table tables IH]; intros w; [reflexivity|].
  cbn [successful_table_count].
  destruct (iteration_cases clients table w) as [Hb | count Hne Hc | e Hne Hc].
  - rewrite (collected_blank _ _ _ Hb), Hb. apply IH.
  - rewrite (collected_counted _ _ _ _ Hne Hc). cbv zeta. rewrite Hc.
    destruct (strip table); [contradiction|]. cbn. now rewrite IH.
  - rewrite (collected_failed _ _ _ _ Hne Hc). cbv zeta. rewrite Hc.
    destruct (strip table); [contradiction|]. cbn. now rewrite IH.
Qed.

(** The loop over a concatenation is the loop over its first part
    followed by the loop over its second part. *)
Lemma collect_app (pre post : list str) (metric_data : list MetricDatum)
      (w : World) :
  collect clients (pre ++ post) metric_data w
  = after (trace (collect clients pre [] w))
      (collect clients post (metric_data ++ collected clients pre w)
         (world (collect clients pre [] w))).
Proof.
  revert metric_data w. induction pre as [|table pre IH]; intros metric_data w.
  - cbn [app collect]. rewrite collected_nil, app_nil_r. cbn.
    now rewrite after_nil.
  - cbn [app].
    destruct (iteration_cases clients table w) as [Hb | count Hne Hc | e Hne Hc].
    + rewrite !collect_blank by exact Hb. rewrite (collected_blank _ _ _ Hb).
      apply IH.
    + rewrite !(collect_counted clients table _ _ w count Hne Hc).
      rewrite (collected_counted _ _ _ _ Hne Hc). rewrite IH.
      cbn [after trace world].
      rewrite (collect_collected clients pre ([] ++ _)). cbn [trace world].
      rewrite after_after, <- !app_assoc. reflexivity.
    + rewrite !(collect_failed clients table _ _ w e Hne Hc).
      rewrite (collected_failed _ _ _ _ Hne Hc). rewrite IH.
      cbn [after trace world].
      rewrite after_after, <- !app_assoc. reflexivity.
Qed.

Lemma collected_app (pre post : list str) (w : World) :
  collected clients (pre ++ post) w
  = collected clients pre w
    ++ collected clients post (world (collect clients pre [] w)).
Proof.
  unfold collected at 1. rewrite collect_app.
  rewrite (collect_collected clients post). reflexivity.
Qed.

(** The loop leaves the metrics sink alone. *)
Lemma collect_submissions (tables : list str) (metric_data : list MetricDatum)
      (w : World) :
  submissions (trace (collect clients tables metric_data w)) = [].
Proof.
  revert metric_data w. induction tables as [|table tables IH];
    intros metric_data w; [reflexivity|].
  destruct (iteration_cases clients table w) as [Hb | count Hne Hc | e Hne Hc].
  - rewrite collect_blank by exact Hb. apply IH.
  - rewrite (collect_counted clients table _ _ w count Hne Hc).
    cbn [after trace]. rewrite !submissions_app, IH.
    now rewrite (proj1 (scan_count_trace clients _ w)).
  - rewrite (collect_failed clients table _ _ w e Hne Hc).
    cbn [after trace]. rewrite !submissions_app, IH.
    now rewrite (proj1 (scan_count_trace clients _ w)).
Qed.

(** Blank entries alone: nothing happens. *)
Lemma collect_all_blank (tables : list str) (metric_data : list MetricDatum)
      (w : World) :
  Forall (fun table => strip table = []) tables ->
  collect clients tables metric_data w = ret metric_data w.
Proof.
  induction 1 as [|table tables Hb _ IH]; [reflexivity|].
  now rewrite collect_blank.
Qed.

Lemma scan_count_ignores_world (t : str) (w w' : World) :
  answers_ignore_world clients ->
  result (scan_count clients t w) = result (scan_count clients t w').
Proof.
  intros H. unfold scan_count.
  pose proof (proj1 (H t w w')) as Hp.
  destruct (paginate_scan clients t w) as [[pages r] w1],
           (paginate_scan clients t w') as [[pages' r'] w1']. cbn in Hp.
  injection Hp as <- <-. destruct r as [e1|]; cbn; [|reflexivity].
  unfold bind, dynamodb_scan. cbv zeta.
  pose proof (proj2 (H t w1 w1')) as Hs.
  destruct (scan clients t w1) as [a w2], (scan clients t w1') as [a' w2'].
  cbn in Hs. subst a'. destruct a; reflexivity.
Qed.

Lemma collected_ignores_world (tables : list str) (w w' : World) :
  answers_ignore_world clients ->
  collected clients tables w = collected clients tables w'.
Proof.
  intros H. revert w w'. induction tables as [|table tables IH]; intros w w';
    [reflexivity|].
  pose proof (scan_count_ignores_world (strip table) w w' H) as Hr.
  destruct (iteration_cases clients table w) as [Hb | count Hne Hc | e Hne Hc].
  - rewrite !(collected_blank _ _ _ Hb). apply IH.
  - rewrite (collected_counted _ _ _ _ Hne Hc).
    rewrite Hr in Hc. rewrite (collected_counted _ _ _ _ Hne Hc).
    f_equal. apply IH.
  - rewrite (collected_failed _ _ _ _ Hne Hc).
    rewrite Hr in Hc. rewrite (collected_failed _ _ _ _ Hne Hc).
    apply IH.
Qed.

End Collecting.

(** ** Batches of twenty *)

Lemma firstn_firstn_skipn {A} (a b : nat) (l : list A) :
  firstn a l ++ firstn b (skipn a l) = firstn (a + b) l.
Proof.
  revert l. induction a as [|a IH]; intros l; [reflexivity|].
  destruct l as [|x l]; cbn [firstn skipn app Nat.add].
  - now rewrite firstn_nil.
  - now rewrite IH.
Qed.

Lemma slice_twenty {A} (l : list A) (i : nat) :
  slice l i (i + 20) = firstn 20 (skipn i l).
Proof. unfold slice. now replace (i + 20 - i) with 20 by lia. Qed.

Lemma range_zero_twenty (n : nat) :
  range 0 n 20 = map (fun k => k * 20) (seq 0 (ceil_div n 20)).
Proof. unfold range, ceil_div. now rewrite Nat.sub_0_r. Qed.

Lemma batches_as_chunks (metric_data : list MetricDatum) :
  batches metric_data
  = map (fun k => firstn 20 (skipn (k * 20) metric_data))
        (seq 0 (ceil_div (length metric_data) 20)).
Proof.
  unfold batches. rewrite range_zero_twenty, map_map.
  apply map_ext. intros k. apply slice_twenty.
Qed.

Lemma concat_chunks {A} (l : list A) (m : nat) :
  concat (map (fun k => firstn 20 (skipn (k * 20) l)) (seq 0 m))
  = firstn (m * 20) l.
Proof.
  induction m as [|m IH]; [reflexivity|].
  rewrite seq_S, map_app, concat_app, IH. cbn [Nat.add map concat].
  rewrite app_nil_r, firstn_firstn_skipn. f_equal. lia.
Qed.

(** [ceil_div n 20] is the least number of twenties that cover [n]. *)
Lemma ceil_div_twenty (n : nat) :
  n <= ceil_div n 20 * 20 /\ ceil_div n 20 * 20 < n + 20.
Proof.
  unfold ceil_div.
  pose proof (Nat.div_mod_eq (n + 20 - 1) 20) as E.
  pose proof (Nat.mod_upper_bound (n + 20 - 1) 20 ltac:(lia)) as B.
  lia.
Qed.

(** The batches, one after the other, are the list. *)
Lemma concat_batches (metric_data : list MetricDatum) :
  concat (batches metric_data) = metric_data.
Proof.
  rewrite batches_as_chunks, concat_chunks.
  apply firstn_all2. apply ceil_div_twenty.
Qed.

Lemma length_batches (metric_data : list MetricDatum) :
  length (batches metric_data) = ceil_div (length metric_data) 20.
Proof. rewrite batches_as_chunks. now rewrite length_map, length_seq. Qed.

(** Every batch has between one and twenty points. *)
Lemma batches_bounded (metric_data : list MetricDatum) :
  Forall (fun batch => 0 < length batch <= 20) (batches metric_data).
Proof.
  rewrite batches_as_chunks. apply Forall_forall. intros batch Hin.
  apply in_map_iff in Hin. destruct Hin as (k & <- & Hk).
  apply in_seq in Hk. rewrite length_firstn, length_skipn.
  pose proof (ceil_div_twenty (length metric_data)). lia.
Qed.

Lemma Forall_firstn {A} (P : A -> Prop) (k : nat) (l : list A) :
  Forall P l -> Forall P (firstn k l).
Proof.
  intros H. revert k. induction H as [|x l Hx _ IH]; intros [|k]; cbn;
    constructor; auto.
Qed.

(** A leading run of the batches is a leading part of the list. *)
Lemma concat_firstn_batches (metric_data : list MetricDatum) (k : nat) :
  exists rest, metric_data = concat (firstn k (batches metric_data)) ++ rest.
Proof.
  exists (concat (skipn k (batches metric_data))).
  rewrite <- concat_app, firstn_skipn. symmetry. apply concat_batches.
Qed.

(** ** Publishing *)

Section Publishing.
Context {World Exception : Type}.
Variable clients : Clients World Exception.
Variable environ : Environ.

Lemma submissions_put_events
      (l : list (str * list MetricDatum * option Exception)) :
  submissions (map put_event l) = l.
Proof.
  induction l as [|[[ns b] r] l IH]; [reflexivity|].
  cbn. now rewrite IH.
Qed.

Lemma put_accepted (ns : str) (batch : list MetricDatum) (w w1 : World) :
  put_metric_data clients ns batch w = (None, w1) ->
  cloudwatch_put_metric_data clients ns batch w
  = {| result := inr tt; world := w1;
       trace := [CloudWatchPutMetricData ns batch None] |}.
Proof. intros H. unfold cloudwatch_put_metric_data. now rewrite H. Qed.

Lemma put_raised (ns : str) (batch : list MetricDatum) (w w1 : World)
      (e : Exception) :
  put_metric_data clients ns batch w = (Some e, w1) ->
  cloudwatch_put_metric_data clients ns batch w
  = {| result := inl e; world := w1;
       trace := [CloudWatchPutMetricData ns batch (Some e)] |}.
Proof. intros H. unfold cloudwatch_put_metric_data. now rewrite H. Qed.

Lemma put_batches_ends (starts : list nat) (metric_data : list MetricDatum)
      (w : World) :
  put_batches_end environ starts metric_data
                  (put_batches clients environ starts metric_data w).
Proof.
  revert w. induction starts as [|i starts IH]; intros w.
  - now apply (AllAccepted environ _ _ _ []).
  - cbn [put_batches].
    set (batch := slice metric_data i (i + 20)).
    destruct (put_metric_data clients (NAMESPACE environ) batch w)
      as [[e|] w1] eqn:Ep.
    + rewrite (bind_inl _ _ _ e); rewrite (put_raised _ _ _ _ _ Ep);
        [|reflexivity].
      apply (StoppedAt environ _ _ _ 0 [] batch e); cbn; auto. lia.
    + rewrite (bind_inr _ _ _ tt); rewrite (put_accepted _ _ _ _ Ep);
        [|reflexivity].
      cbn [trace world].
      destruct (IH w1) as [sent Ht Hs Ha Hr | k sent b e Hk Ht Hs Ha Hr].
      * apply (AllAccepted environ _ _ _ ((NAMESPACE environ, batch, None) :: sent));
          cbn; [now rewrite Ht | now rewrite Hs | | exact Hr].
        constructor; [reflexivity | exact Ha].
      * apply (StoppedAt environ _ _ _ (S k)
                         ((NAMESPACE environ, batch, None) :: sent) b e);
          cbn [length map app firstn after trace result];
          [lia | now rewrite Ht | now rewrite Hs | | exact Hr].
        constructor; [reflexivity | exact Ha].
Qed.

Lemma publish_ends (metric_data : list MetricDatum) (w : World) :
  publish_end environ metric_data (publish clients environ metric_data w).
Proof.
  unfold publish.
  set (loop := put_batches clients environ
                 (range 0 (length metric_data) 20) metric_data).
  destruct (put_batches_ends (range 0 (length metric_data) 20) metric_data w)
    as [sent Ht Hs Ha Hr | k sent b e Hk Ht Hs Ha Hr]; fold loop in Ht, Hr.
  - rewrite (try_except_inr _ _ _ true);
      rewrite (bind_inr _ _ _ tt Hr); [|reflexivity].
    apply (Published environ _ _ sent); cbn; auto. now rewrite app_nil_r.
  - rewrite (try_except_inl _ _ _ e);
      rewrite (bind_inl _ _ _ _ Hr); [|reflexivity].
    cbn [trace world]. rewrite bind_log.
    apply (Aborted environ _ _ k sent b e); auto.
    + unfold batches. now rewrite length_map.
    + cbn [after trace ret]. rewrite Ht, map_app, app_nil_r, <- app_assoc.
      reflexivity.
Qed.

(** [publish] never raises. *)
Lemma publish_returns (metric_data : list MetricDatum) (w : World) :
  exists ok, result (publish clients environ metric_data w) = inr ok.
Proof.
  destruct (publish_ends metric_data w); eauto.
Qed.

(** ** The entry point, unfolded *)

(** The variable is unset or empty: the guard returns at once. *)
Lemma lambda_handler_no_tables {E C : Type} (event : E) (context : C) (w : World) :
  environ_get environ "TABLES" (lit "") = [] ->
  lambda_handler clients environ event context w
  = {| result := inr [(lit "status", lit "no-tables")];
       world := w;
       trace := [Log NoTablesConfigured] |}.
Proof.
  intros H. unfold lambda_handler. rewrite guard_iff_empty, H. reflexivity.
Qed.

(** Otherwise the tables are counted and the points published. *)
Lemma lambda_handler_runs {E C : Type} (event : E) (context : C) (w : World) (ok : bool) :
  environ_get environ "TABLES" (lit "") <> [] ->
  let counted := collect clients (TABLES environ) [] w in
  let published :=
    publish clients environ (collected clients (TABLES environ) w)
            (world counted) in
  result published = inr ok ->
  lambda_handler clients environ event context w
  = {| result := inr [(lit "status", if ok then lit "ok" else lit "error")];
       world := world published;
       trace := trace counted ++ trace published |}.
Proof.
  intros H counted published Hok. unfold lambda_handler.
  rewrite guard_iff_empty.
  destruct (environ_get environ "TABLES" (lit "")); [contradiction|].
  cbn [truthy negb]. unfold publish_counts.
  assert (Hc : result counted = inr (collected clients (TABLES environ) w)).
  { unfold counted. now rewrite collect_collected. }
  assert (Hp : bind (collect clients (TABLES environ) [])
                    (fun metric_data => publish clients environ metric_data) w
               = after (trace counted) published).
  { now rewrite (bind_inr _ _ _ _ Hc). }
  rewrite (bind_inr _ _ _ ok); rewrite Hp; [|exact Hok].
  unfold after, ret. cbn [result world trace]. now rewrite app_nil_r.
Qed.

End Publishing.

(** ** The table list, parsed *)

Lemma join_cons (sep : char) (field : str) (fields : list str) :
  fields <> [] ->
  join sep (field :: fields) = field ++ sep :: join sep fields.
Proof. destruct fields; [contradiction | reflexivity]. Qed.

Lemma join_split (sep : char) (s : str) : join sep (split sep s) = s.
Proof.
  induction s as [|c s IH]; [reflexivity|]. cbn [split].
  destruct (char_eqb c sep) eqn:E.
  - apply N.eqb_eq in E. subst c.
    rewrite join_cons by apply split_not_nil. now rewrite IH.
  - destruct (split sep s) as [|f fs] eqn:Es; [now apply split_not_nil in Es|].
    destruct fs as [|g fs].
    + cbn in *. now rewrite IH.
    + rewrite join_cons by discriminate.
      rewrite join_cons in IH by discriminate.
      cbn [app]. now rewrite IH.
Qed.

Lemma split_fields_without_sep (sep : char) (s : str) :
  Forall (fun field => ~ In sep field) (split sep s).
Proof.
  induction s as [|c s IH]; cbn [split].
  - constructor; [intros [] | constructor].
  - destruct (char_eqb c sep) eqn:E.
    + constructor; [intros [] | exact IH].
    + destruct (split sep s) as [|f fs]; [repeat constructor; intros [H|[]]|].
      * subst c. unfold char_eqb in E. now rewrite N.eqb_refl in E.
      * inversion IH as [|? ? Hf Hfs]; subst. constructor; [|exact Hfs].
        intros [H|H]; [|now apply Hf].
        subst c. unfold char_eqb in E. now rewrite N.eqb_refl in E.
Qed.

Lemma length_split (sep : char) (s : str) :
  length (split sep s) = S (length (filter (fun c => char_eqb c sep) s)).
Proof.
  induction s as [|c s IH]; [reflexivity|]. cbn [split filter].
  destruct (char_eqb c sep); cbn [length]; [now rewrite IH|].
  destruct (split sep s); [discriminate IH | exact IH].
Qed.

(** ** Trimmed names *)

Lemma lstrip_head (s : str) (c : char) (r : str) :
  lstrip s = c :: r -> isspace c = false.
Proof.
  induction s as [|a s IH]; cbn [lstrip]; [discriminate|].
  destruct (isspace a) eqn:E; [exact IH|].
  intros H. injection H as <- _. exact E.
Qed.

Lemma lstrip_app_kept (x y : str) (c : char) :
  isspace c = false -> lstrip (x ++ c :: y) = lstrip x ++ c :: y.
Proof.
  intros Hc. induction x as [|a x IH]; cbn [app lstrip].
  - now rewrite Hc.
  - destruct (isspace a); [exact IH | reflexivity].
Qed.

Lemma lstrip_kept (c : char) (r : str) :
  isspace c = false -> lstrip (c :: r) = c :: r.
Proof. intros Hc. cbn [lstrip]. now rewrite Hc. Qed.

(** [rstrip] keeps a first character that is not whitespace. *)
Lemma rstrip_head (c : char) (r : str) :
  isspace c = false -> rstrip (c :: r) = c :: rstrip r.
Proof.
  intros Hc. unfold rstrip. cbn [rev].
  rewrite (lstrip_app_kept _ [] _ Hc), rev_app_distr. reflexivity.
Qed.

Lemma rstrip_last (s r : str) (d : char) :
  rstrip s = r ++ [d] -> isspace d = false.
Proof.
  unfold rstrip. intros H.
  apply (f_equal (@rev _)) in H. rewrite rev_involutive, rev_app_distr in H.
  cbn in H. exact (lstrip_head _ _ _ H).
Qed.

Lemma rstrip_kept (r : str) (d : char) :
  isspace d = false -> rstrip (r ++ [d]) = r ++ [d].
Proof.
  intros Hd. unfold rstrip. rewrite rev_app_distr. cbn [rev app].
  rewrite (lstrip_kept _ _ Hd). cbn [rev]. now rewrite rev_involutive.
Qed.

(** What [strip] leaves is empty or trimmed. *)
Lemma strip_trimmed (s : str) : strip s <> [] -> trimmed (strip s).
Proof.
  unfold strip. intros Hne.
  destruct (lstrip s) as [|c r] eqn:El; [now contradiction Hne|].
  pose proof (lstrip_head _ _ _ El) as Hc.
  split.
  - exists c, (rstrip r). split; [now apply rstrip_head | exact Hc].
  - destruct (rstrip (c :: r)) as [|a q] eqn:Er using rev_ind;
      [now contradiction Hne|].
    exists q, a. split; [reflexivity|]. exact (rstrip_last _ _ _ Er).
Qed.

Lemma strip_of_trimmed (t : str) : trimmed t -> strip t = t.
Proof.
  intros [(c & r & -> & Hc) (q & d & Hq & Hd)].
  unfold strip. rewrite (lstrip_kept _ _ Hc), Hq. now apply rstrip_kept.
Qed.

Lemma strip_idempotent (s : str) : strip (strip s) = strip s.
Proof.
  destruct (strip s) as [|c r] eqn:E; [reflexivity|].
  rewrite <- E. apply strip_of_trimmed, strip_trimmed. rewrite E. discriminate.
Qed.

Lemma nonblank_trimmed (tables : list str) : Forall trimmed (nonblank tables).
Proof.
  unfold nonblank. apply Forall_forall. intros t Hin.
  apply filter_In in Hin. destruct Hin as [Hin Ht].
  apply in_map_iff in Hin. destruct Hin as (raw & <- & _).
  apply strip_trimmed. now destruct (strip raw).
Qed.

Lemma nonblank_cons_blank (table : str) (tables : list str) :
  strip table = [] -> nonblank (table :: tables) = nonblank tables.
Proof. intros H. unfold nonblank. cbn [map filter]. now rewrite H. Qed.

Lemma nonblank_cons (table : str) (tables : list str) :
  strip table <> [] ->
  nonblank (table :: tables) = strip table :: nonblank tables.
Proof.
  intros H. unfold nonblank. cbn [map filter].
  now destruct (strip table).
Qed.

(** ** More readings of a trace *)

Section MoreTraces.
Context {Exception : Type}.

Lemma paginated_app (a b : list (Event Exception)) :
  paginated (a ++ b) = paginated a ++ paginated b.
Proof.
  induction a as [|ev a IH]; [reflexivity|].
  destruct ev; cbn [app paginated]; rewrite IH; reflexivity.
Qed.

Lemma scanned_app (a b : list (Event Exception)) :
  scanned (a ++ b) = scanned a ++ scanned b.
Proof.
  induction a as [|ev a IH]; [reflexivity|].
  destruct ev; cbn [app scanned]; rewrite IH; reflexivity.
Qed.

Lemma table_records_app (a b : list (Event Exception)) :
  table_records (a ++ b) = table_records a ++ table_records b.
Proof.
  induction a as [|ev a IH]; [reflexivity|].
  destruct ev as [| | |[]]; cbn [app table_records]; rewrite IH; reflexivity.
Qed.

Lemma store_calls_concat (a b : list (Event Exception)) :
  store_calls (a ++ b) = store_calls a ++ store_calls b.
Proof. apply filter_app. Qed.

(** Calls to the metrics sink are neither calls to the store nor log
    records of a table. *)
Lemma put_events_only
      (l : list (str * list MetricDatum * option Exception)) :
  paginated (map put_event l) = [] /\
  scanned (map put_event l) = [] /\
  table_records (map put_event l) = [] /\
  store_calls (map put_event l) = [].
Proof.
  induction l as [|s l IH]; [repeat split|]. cbn. exact IH.
Qed.

Lemma points_of_app (a b : list (str * option Z)) :
  points_of (a ++ b) = points_of a ++ points_of b.
Proof. apply flat_map_app. Qed.

End MoreTraces.

(** ** More about counting and publishing *)

Section MoreLemmas.
Context {World Exception : Type}.
Variable clients : Clients World Exception.
Variable environ : Environ.

(** The calls of one count: the paginated scan, then the single scan
    when the pagination raised; no log record. *)
Lemma scan_count_calls (t : str) (w : World) :
  paginated (trace (scan_count clients t w))
  = [(t, snd (fst (paginate_scan clients t w)))] /\
  scanned (trace (scan_count clients t w))
  = match snd (fst (paginate_scan clients t w)) with
    | Some _ => [t]
    | None => []
    end /\
  table_records (trace (scan_count clients t w)) = [].
Proof.
  unfold scan_count.
  destruct (paginate_scan clients t w) as [[pages [e1|]] w1]; cbn;
    [|repeat split].
  unfold bind, dynamodb_scan.
  destruct (scan clients t w1) as [[e2|resp] w2]; cbn; repeat split.
Qed.

(** The count the store reports is not negative when no page count is. *)
Lemma scan_count_not_negative (t : str) (w : World) (count : Z) :
  counts_not_negative clients ->
  result (scan_count clients t w) = inr count -> (0 <= count)%Z.
Proof.
  intros Hn. unfold scan_count.
  pose proof (proj1 (Hn t w)) as Hp.
  destruct (paginate_scan clients t w) as [[pages [e1|]] w1]; cbn in *.
  - unfold bind, dynamodb_scan.
    pose proof (proj2 (Hn t w1)) as Hs.
    destruct (scan clients t w1) as [[e2|resp] w2]; cbn in *; [discriminate|].
    intros H. injection H as <-. now apply Hs.
  - intros H. injection H as <-. rewrite total_loop.
    assert (0 <= sum_of_page_counts pages)%Z; [|lia].
    unfold sum_of_page_counts.
    induction Hp as [|p pages Hp0 _ IH]; cbn; lia.
Qed.

(** The trace of the collecting loop does not depend on the list it is
    given. *)
Lemma collect_trace (tables : list str) (metric_data : list MetricDatum)
      (w : World) :
  trace (collect clients tables metric_data w)
  = trace (collect clients tables [] w).
Proof. now rewrite collect_collected. Qed.

(** One paginated scan per entry that is not blank, in order. *)
Lemma collect_paginated (tables : list str) (w : World) :
  map fst (paginated (trace (collect clients tables [] w))) = nonblank tables.
Proof.
  revert w. induction tables as [|table tables IH]; intros w; [reflexivity|].
  destruct (iteration_cases clients table w) as [Hb | count Hne Hc | e Hne Hc].
  - rewrite collect_blank, nonblank_cons_blank by exact Hb. apply IH.
  - rewrite (collect_counted clients table _ _ w count Hne Hc).
    cbn [after trace]. rewrite collect_trace, !paginated_app, !map_app, IH.
    rewrite (proj1 (scan_count_calls _ w)), nonblank_cons by exact Hne.
    reflexivity.
  - rewrite (collect_failed clients table _ _ w e Hne Hc).
    cbn [after trace]. rewrite !paginated_app, !map_app, IH.
    rewrite (proj1 (scan_count_calls _ w)), nonblank_cons by exact Hne.
    reflexivity.
Qed.

Lemma raised_for_app (a b : list (str * option Exception)) :
  raised_for (a ++ b) = raised_for a ++ raised_for b.
Proof. unfold raised_for. now rewrite filter_app, map_app. Qed.

(** A single scan for every pagination that raised, and no other. *)
Lemma collect_scanned (tables : list str) (w : World) :
  scanned (trace (collect clients tables [] w))
  = raised_for (paginated (trace (collect clients tables [] w))).
Proof.
  assert (Hsc : forall t w0,
             scanned (trace (scan_count clients t w0))
             = raised_for (paginated (trace (scan_count clients t w0)))).
  { intros t w0. destruct (scan_count_calls t w0) as (-> & -> & _).
    unfold raised_for. cbn.
    now destruct (snd (fst (paginate_scan clients t w0))). }
  revert w. induction tables as [|table tables IH]; intros w; [reflexivity|].
  destruct (iteration_cases clients table w) as [Hb | count Hne Hc | e Hne Hc].
  - rewrite collect_blank by exact Hb. apply IH.
  - rewrite (collect_counted clients table _ _ w count Hne Hc).
    cbn [after trace]. rewrite collect_trace.
    rewrite !scanned_app, !paginated_app, !raised_for_app, IH, Hsc.
    reflexivity.
  - rewrite (collect_failed clients table _ _ w e Hne Hc).
    cbn [after trace].
    rewrite !scanned_app, !paginated_app, !raised_for_app, IH, Hsc.
    reflexivity.
Qed.

(** One log record per entry that is not blank, in order, and one data
    point per record with a count. *)
Lemma collect_table_records (tables : list str) (w : World) :
  map fst (table_records (trace (collect clients tables [] w)))
  = nonblank tables /\
  collected clients tables w
  = points_of (table_records (trace (collect clients tables [] w))).
Proof.
  revert w. induction tables as [|table tables IH]; intros w;
    [split; reflexivity|].
  destruct (iteration_cases clients table w) as [Hb | count Hne Hc | e Hne Hc].
  - rewrite collect_blank, nonblank_cons_blank, collected_blank by exact Hb.
    apply IH.
  - rewrite (collect_counted clients table _ _ w count Hne Hc).
    rewrite (collected_counted clients _ _ _ _ Hne Hc).
    cbn [after trace]. rewrite collect_trace.
    rewrite !table_records_app, !map_app, points_of_app.
    rewrite (proj2 (proj2 (scan_count_calls _ w))).
    destruct (IH (world (scan_count clients (strip table) w))) as [-> ->].
    rewrite nonblank_cons by exact Hne. split; reflexivity.
  - rewrite (collect_failed clients table _ _ w e Hne Hc).
    rewrite (collected_failed clients _ _ _ _ Hne Hc).
    cbn [after trace].
    rewrite !table_records_app, !map_app, points_of_app.
    rewrite (proj2 (proj2 (scan_count_calls _ w))).
    destruct (IH (world (scan_count clients (strip table) w))) as [-> ->].
    rewrite nonblank_cons by exact Hne. split; reflexivity.
Qed.

(** The collecting loop sees a table list through its entries that are
    not blank. *)
Lemma collect_nonblank (tables : list str) (metric_data : list MetricDatum)
      (w : World) :
  collect clients tables metric_data w
  = collect clients (nonblank tables) metric_data w.
Proof.
  revert metric_data w. induction tables as [|table tables IH];
    intros metric_data w; [reflexivity|].
  destruct (iteration_cases clients table w) as [Hb | count Hne Hc | e Hne Hc].
  - rewrite collect_blank, nonblank_cons_blank by exact Hb. apply IH.
  - rewrite nonblank_cons by exact Hne.
    rewrite (collect_counted clients table _ _ w count Hne Hc).
    assert (Hne' : strip (strip table) <> [])
      by now rewrite strip_idempotent.
    assert (Hc' : result (scan_count clients (strip (strip table)) w) = inr count)
      by now rewrite strip_idempotent.
    rewrite (collect_counted clients (strip table) _ _ w count Hne' Hc').
    rewrite strip_idempotent, IH. reflexivity.
  - rewrite nonblank_cons by exact Hne.
    rewrite (collect_failed clients table _ _ w e Hne Hc).
    assert (Hne' : strip (strip table) <> [])
      by now rewrite strip_idempotent.
    assert (Hc' : result (scan_count clients (strip (strip table)) w) = inl e)
      by now rewrite strip_idempotent.
    rewrite (collect_failed clients (strip table) _ _ w e Hne' Hc').
    rewrite strip_idempotent, IH. reflexivity.
Qed.

(** No collected value is negative when no reported count is. *)
Lemma collected_not_negative (tables : list str) (w : World) :
  counts_not_negative clients ->
  Forall (fun d => (0 <= Value d)%Z) (collected clients tables w).
Proof.
  intros Hn. revert w. induction tables as [|table tables IH]; intros w;
    [constructor|].
  destruct (iteration_cases clients table w) as [Hb | count Hne Hc | e Hne Hc].
  - rewrite collected_blank by exact Hb. apply IH.
  - rewrite (collected_counted clients _ _ _ _ Hne Hc).
    constructor; [|apply IH]. cbn. exact (scan_count_not_negative _ _ _ Hn Hc).
  - rewrite (collected_failed clients _ _ _ _ Hne Hc). apply IH.
Qed.

End MoreLemmas.

Section MorePublishing.
Context {World Exception : Type}.
Variable clients : Clients World Exception.
Variable environ : Environ.

(** Every call of the second loop names the configured namespace. *)
Lemma put_batches_namespace (starts : list nat) (metric_data : list MetricDatum)
      (w : World) :
  Forall (fun s => fst (fst s) = NAMESPACE environ)
         (submissions (trace (put_batches clients environ starts metric_data w))).
Proof.
  revert w. induction starts as [|i starts IH]; intros w; [constructor|].
  cbn [put_batches].
  set (batch := slice metric_data i (i + 20)).
  destruct (put_metric_data clients (NAMESPACE environ) batch w)
    as [[e|] w1] eqn:Ep.
  - rewrite (bind_inl _ _ _ e); rewrite (put_raised _ _ _ _ _ _ Ep);
      [|reflexivity].
    cbn. repeat constructor.
  - rewrite (bind_inr _ _ _ tt); rewrite (put_accepted _ _ _ _ _ Ep);
      [|reflexivity].
    cbn. constructor; [reflexivity | apply IH].
Qed.

(** What [publish] does, read off its trace: calls to the metrics sink
    only, for leading batches of the list, each under the configured
    namespace. *)
Lemma publish_trace (metric_data : list MetricDatum) (w : World) :
  let t := trace (publish clients environ metric_data w) in
  paginated t = [] /\ scanned t = [] /\ table_records t = [] /\
  store_calls t = [] /\
  (exists j, batches_sent t = firstn j (batches metric_data)).
Proof.
  intros t. subst t.
  destruct (publish_ends clients environ metric_data w)
    as [sent Ht Hs Ha Hr | k sent b e Hk Ht Hs Ha Hr]; rewrite Ht.
  - destruct (put_events_only sent) as (-> & -> & -> & ->).
    repeat split. exists (length (batches metric_data)).
    unfold batches_sent. now rewrite submissions_put_events, Hs, firstn_all.
  - rewrite paginated_app, scanned_app, table_records_app, store_calls_concat.
    destruct (put_events_only sent) as (-> & -> & -> & ->).
    repeat split. exists (S k). unfold batches_sent.
    rewrite submissions_app, submissions_put_events, map_app. cbn.
    exact Hs.
Qed.

Lemma publish_namespace (metric_data : list MetricDatum) (w : World) :
  Forall (fun s => fst (fst s) = NAMESPACE environ)
         (submissions (trace (publish clients environ metric_data w))).
Proof.
  unfold publish.
  set (loop := put_batches clients environ
                 (range 0 (length metric_data) 20) metric_data).
  pose proof (put_batches_namespace (range 0 (length metric_data) 20)
                                    metric_data w) as Hn.
  fold loop in Hn.
  destruct (result (loop w)) as [e|[]] eqn:Hr.
  - rewrite (try_except_inl _ _ _ e);
      rewrite (bind_inl _ _ _ _ Hr); [|reflexivity].
    cbn [trace world]. rewrite bind_log. cbn [after trace ret].
    rewrite submissions_app. cbn. now rewrite app_nil_r.
  - rewrite (try_except_inr _ _ _ true);
      rewrite (bind_inr _ _ _ tt Hr); [|reflexivity].
    cbn [after trace ret]. now rewrite app_nil_r.
Qed.

(** [publish] reads the configuration for the namespace only. *)
Lemma publish_same_namespace (environ' : Environ)
      (metric_data : list MetricDatum) (w : World) :
  NAMESPACE environ = NAMESPACE environ' ->
  publish clients environ metric_data w
  = publish clients environ' metric_data w.
Proof.
  intros Hns. unfold publish.
  assert (Hloop : forall starts w0,
             put_batches clients environ starts metric_data w0
             = put_batches clients environ' starts metric_data w0).
  { induction starts as [|i starts IH]; intros w0; [reflexivity|].
    cbn [put_batches]. rewrite <- Hns. unfold bind. cbv zeta.
    destruct (result (cloudwatch_put_metric_data clients (NAMESPACE environ)
                        (slice metric_data i (i + 20)) w0));
      [reflexivity | now rewrite IH]. }
  unfold try_except, bind. cbv zeta. now rewrite Hloop.
Qed.

Lemma TABLES_unset :
  environ_get environ "TABLES" (lit "") = [] -> TABLES environ = [[]].
Proof. intros H. unfold TABLES. now rewrite H. Qed.

Lemma lambda_handler_phases {E C : Type} (event : E) (context : C) (w : World) :
  run_phases clients environ event context w.
Proof.
  destruct (environ_get environ "TABLES" (lit "")) as [|c raw] eqn:Eraw.
  - apply GuardReturns; [exact Eraw|].
    now apply lambda_handler_no_tables.
  - assert (Hne : environ_get environ "TABLES" (lit "") <> [])
      by (rewrite Eraw; discriminate).
    destruct (publish_returns clients environ
                (collected clients (TABLES environ) w)
                (world (collect clients (TABLES environ) [] w))) as [ok Hok].
    apply (CountsThenPublishes clients environ event context w ok).
    + exact Hne.
    + exact (lambda_handler_runs clients environ event context w ok Hne Hok).
Qed.

End MorePublishing.

(** ** Properties of a run *)

Section Properties.
Context {World Exception : Type}.
Variable clients : Clients World Exception.
Variable environ : Environ.

Lemma publish_nil (w : World) :
  publish clients environ [] w = ret true w.
Proof. reflexivity. Qed.

Lemma publish_counts_runs (w : World) :
  publish_counts clients environ w
  = after (trace (collect clients (TABLES environ) [] w))
      (publish clients environ (collected clients (TABLES environ) w)
         (world (collect clients (TABLES environ) [] w))).
Proof.
  unfold publish_counts.
  rewrite (bind_inr _ _ _ (collected clients (TABLES environ) w));
    [reflexivity|].
  now rewrite collect_collected.
Qed.

Lemma blank_only_TABLES :
  blank_only (environ_get environ "TABLES" (lit "")) ->
  Forall (fun table => strip table = []) (TABLES environ).
Proof.
  intros H. apply split_blank_only in H. unfold TABLES.
  eapply Forall_impl; [|exact H]. apply strip_all_space.
Qed.

Lemma Exists_failed_not_accepted
      (l : list (str * list MetricDatum * option Exception)) :
  Forall accepted l -> ~ Exists failed l.
Proof.
  intros Ha He. apply Exists_exists in He. destruct He as (s & Hin & Hf).
  rewrite Forall_forall in Ha. exact (Hf (Ha s Hin)).
Qed.

(** C1 (amended). When the table list is unset, empty, or made only of
    whitespace and commas, the entry point calls neither the remote
    store nor the metrics sink and leaves the world as it found it.  It
    returns status "no-tables" when the list is unset or empty; a list
    that is not empty passes the guard and the run returns "ok". *)
Theorem blank_table_list_makes_no_calls
        {E C : Type} (event : E) (context : C) (w : World) :
  blank_only (environ_get environ "TABLES" (lit "")) ->
  let o := lambda_handler clients environ event context w in
  store_calls (trace o) = [] /\
  submissions (trace o) = [] /\
  world o = w /\
  (environ_get environ "TABLES" (lit "") = [] ->
   result o = inr [(lit "status", lit "no-tables")]) /\
  (environ_get environ "TABLES" (lit "") <> [] ->
   result o = inr [(lit "status", lit "ok")]).
Proof.
  intros Hb o. subst o.
  destruct (environ_get environ "TABLES" (lit "")) as [|c raw] eqn:Eraw.
  - rewrite (lambda_handler_no_tables clients environ event context w Eraw).
    cbn. repeat split; auto. intros H; now contradiction H.
  - assert (Hne : environ_get environ "TABLES" (lit "") <> [])
      by (rewrite Eraw; discriminate).
    rewrite <- Eraw in Hb. apply blank_only_TABLES in Hb.
    pose proof (collect_all_blank clients _ [] w Hb) as Hc.
    assert (Hd : collected clients (TABLES environ) w = [])
      by (unfold collected; now rewrite Hc).
    rewrite (lambda_handler_runs clients environ event context w true Hne);
      rewrite Hd, Hc; cbn [ret world trace result]; [|reflexivity].
    repeat split; auto. discriminate.
Qed.

(** C2 (amended). The data points accumulated are one per successful
    count.  The batches handed to the metrics sink are the leading
    batches of the list cut into consecutive batches of at most 20, in
    order: their concatenation is a leading part of the list and each
    holds between 1 and 20 points.  The number of calls is at most
    ceil(successful_table_count / 20); when no submission fails it is
    exactly that and the batches cover the whole list. *)
Theorem batches_sent_by_publish_counts (w : World) :
  let o := publish_counts clients environ w in
  let metric_data := collected clients (TABLES environ) w in
  let n := successful_table_count clients (TABLES environ) w in
  length metric_data = n /\
  batches_sent (trace o)
  = firstn (length (submissions (trace o))) (batches metric_data) /\
  (exists rest, metric_data = concat (batches_sent (trace o)) ++ rest) /\
  Forall (fun batch => 0 < length batch <= 20) (batches_sent (trace o)) /\
  length (submissions (trace o)) <= ceil_div n 20 /\
  (Forall accepted (submissions (trace o)) ->
   length (submissions (trace o)) = ceil_div n 20 /\
   concat (batches_sent (trace o)) = metric_data).
Proof.
  intros o metric_data n.
  assert (Hn : length metric_data = n) by apply collected_length.
  split; [exact Hn|]. rewrite <- Hn. clear Hn n.
  subst o. rewrite publish_counts_runs. fold metric_data.
  set (w1 := world (collect clients (TABLES environ) [] w)).
  unfold batches_sent. cbn [after trace]. rewrite submissions_app.
  rewrite collect_submissions. cbn [app].
  assert (Hfirst :
    map (fun s => snd (fst s))
        (submissions (trace (publish clients environ metric_data w1)))
    = firstn (length (submissions
                        (trace (publish clients environ metric_data w1))))
             (batches metric_data) /\
    length (submissions (trace (publish clients environ metric_data w1)))
    <= length (batches metric_data) /\
    (Forall accepted
            (submissions (trace (publish clients environ metric_data w1))) ->
     length (submissions (trace (publish clients environ metric_data w1)))
     = length (batches metric_data))).
  { destruct (publish_ends clients environ metric_data w1)
      as [sent Ht Hs Ha Hr | k sent b e Hk Ht Hs Ha Hr]; rewrite Ht.
    - rewrite submissions_put_events.
      assert (Hl : length sent = length (batches metric_data))
        by (now rewrite <- Hs, length_map).
      rewrite Hl, firstn_all. repeat split; auto; lia.
    - change [CloudWatchPutMetricData (NAMESPACE environ) b (Some e);
              Log (PutMetricDataFailed e)]
        with (map put_event [(NAMESPACE environ, b, Some e)]
              ++ [Log (PutMetricDataFailed e)]).
      rewrite app_assoc, <- map_app, submissions_app, submissions_put_events.
      cbn [submissions]. rewrite app_nil_r.
      assert (Hl : length (sent ++ [(NAMESPACE environ, b, Some e)]) = S k).
      { apply (f_equal (@length _)) in Hs.
        rewrite length_app, length_map, length_firstn in Hs.
        rewrite length_app. cbn [length] in *. lia. }
      rewrite Hl, map_app. cbn [map fst snd]. repeat split; auto.
      intros Hall. apply Forall_app in Hall. destruct Hall as [_ Hall].
      inversion Hall as [|? ? Hx _]; subst. discriminate Hx. }
  destruct Hfirst as (Hf & Hle & Hall).
  rewrite length_batches in Hle, Hall.
  split; [exact Hf|]. rewrite Hf.
  split; [apply concat_firstn_batches|].
  split; [apply Forall_firstn, batches_bounded|].
  split; [exact Hle|].
  intros Ha. specialize (Hall Ha). split; [exact Hall|].
  rewrite Hall, <- length_batches, firstn_all. apply concat_batches.
Qed.

(** C3. In a run that passes the guard: if a submission to the metrics
    sink fails, the run returns status "error", whatever was accepted
    before; the batches accepted before it stay as they were sent, the
    failed call being the last call of the run, followed by its log
    record only; and if every submission is accepted the run returns
    "ok". *)
Theorem failed_batch_gives_error
        {E C : Type} (event : E) (context : C) (w : World) :
  environ_get environ "TABLES" (lit "") <> [] ->
  let o := lambda_handler clients environ event context w in
  let counted := collect clients (TABLES environ) [] w in
  let metric_data := collected clients (TABLES environ) w in
  (Exists failed (submissions (trace o)) ->
   result o = inr [(lit "status", lit "error")] /\
   exists sent batch e,
     trace o = trace counted
               ++ map put_event sent
               ++ [CloudWatchPutMetricData (NAMESPACE environ) batch (Some e);
                   Log (PutMetricDataFailed e)] /\
     Forall accepted sent /\
     map (fun s => snd (fst s)) sent ++ [batch]
     = firstn (S (length sent)) (batches metric_data)) /\
  (Forall accepted (submissions (trace o)) ->
   result o = inr [(lit "status", lit "ok")]).
Proof.
  intros Hne o counted metric_data. subst o.
  set (published := publish clients environ metric_data (world counted)).
  destruct (publish_ends clients environ metric_data (world counted))
    as [sent Ht Hs Ha Hr | k sent b e Hk Ht Hs Ha Hr]; fold published in Ht, Hr.
  - rewrite (lambda_handler_runs clients environ event context w true Hne Hr).
    fold counted metric_data published. cbn [trace result].
    rewrite submissions_app. unfold counted at 1.
    rewrite collect_submissions, Ht, submissions_put_events. cbn [app].
    split; [|reflexivity].
    intros Hex. now apply Exists_failed_not_accepted in Hex.
  - rewrite (lambda_handler_runs clients environ event context w false Hne Hr).
    fold counted metric_data published. cbn [trace result].
    split.
    + intros _. split; [reflexivity|]. exists sent, b, e.
      rewrite Ht. repeat split; auto.
      assert (Hl : length sent = k).
      { apply (f_equal (@length _)) in Hs.
        rewrite length_app, length_map, length_firstn in Hs.
        cbn [length] in Hs. lia. }
      now rewrite Hl.
    + rewrite submissions_app, Ht.
      change [CloudWatchPutMetricData (NAMESPACE environ) b (Some e);
              Log (PutMetricDataFailed e)]
        with (map put_event [(NAMESPACE environ, b, Some e)]
              ++ [Log (PutMetricDataFailed e)]).
      rewrite !submissions_app, !submissions_put_events.
      intros Hall. apply Forall_app in Hall. destruct Hall as [_ Hall].
      apply Forall_app in Hall. destruct Hall as [_ Hall].
      apply Forall_app in Hall. destruct Hall as [Hall _].
      inversion Hall as [|? ? Hx _]; subst. discriminate Hx.
Qed.

(** When every submission of a run is accepted, the batches sent are
    the points the loop collected, in order. *)
Lemma accepted_run_sends_collected
      {E C : Type} (event : E) (context : C) (w : World) :
  Forall accepted
         (submissions (trace (lambda_handler clients environ event context w))) ->
  concat (batches_sent
            (trace (lambda_handler clients environ event context w)))
  = collected clients (TABLES environ) w.
Proof.
  destruct (lambda_handler_phases clients environ event context w)
    as [Hraw -> | ok Hraw ->]; cbn [trace].
  - intros _. now rewrite (TABLES_unset environ Hraw).
  - set (metric_data := collected clients (TABLES environ) w).
    set (w1 := world (collect clients (TABLES environ) [] w)).
    unfold batches_sent. rewrite submissions_app, collect_submissions.
    cbn [app].
    destruct (publish_ends clients environ metric_data w1)
      as [sent Ht Hs Ha Hr | k sent b e Hk Ht Hs Ha Hr]; rewrite Ht.
    + intros _. rewrite submissions_put_events, Hs. apply concat_batches.
    + change [CloudWatchPutMetricData (NAMESPACE environ) b (Some e);
              Log (PutMetricDataFailed e)]
        with (map put_event [(NAMESPACE environ, b, Some e)]
              ++ [Log (PutMetricDataFailed e)]).
      rewrite app_assoc, <- map_app, submissions_app, submissions_put_events.
      cbn [submissions]. rewrite app_nil_r.
      intros Hall. apply Forall_app in Hall. destruct Hall as [_ Hall].
      inversion Hall as [|? ? Hx _]; subst. discriminate Hx.
Qed.

(** C4. When the paginated count and the single scan both fail for a
    table, the table adds no data point, and the loop goes on with the
    tables after it: they are counted, from the world the failed calls
    left, with the list of points exactly as the tables before had made
    it, as the run without the failing table does from the world before
    those calls.  The points the loop ends with are those of the tables
    before followed by one point for every table after that is logged
    with a count, every entry after that is not blank being logged; a
    next table whose count succeeds adds its point right after the
    points of the tables before, and a run whose submissions are all
    accepted hands exactly these points to the metrics sink.  When the
    answers of the remote store do not depend on the calls made before,
    the points collected are those of the list without the failing
    table. *)
Theorem failed_table_is_skipped
        {E C : Type} (event : E) (context : C)
        (pre post : list str) (table : str) (w w1 w2 : World)
        (pages : list Page) (e1 e2 : Exception) :
  let before := collect clients pre [] w in
  let after_it := table_records (trace (collect clients post [] w2)) in
  strip table <> [] ->
  paginate_scan clients (strip table) (world before) = (pages, Some e1, w1) ->
  scan clients (strip table) w1 = (inl e2, w2) ->
  collected clients (pre ++ [table]) w = collected clients pre w /\
  collect clients (pre ++ table :: post) [] w
  = after (trace before
           ++ [DynamoDBPaginateScan (strip table) pages (Some e1);
               DynamoDBScan (strip table) (inl e2);
               Log (ScanCountFailed (strip table) e2)])
      (collect clients post (collected clients pre w) w2) /\
  collect clients (pre ++ post) [] w
  = after (trace before)
      (collect clients post (collected clients pre w) (world before)) /\
  collected clients (pre ++ table :: post) w
  = collected clients pre w ++ collected clients post w2 /\
  (answers_ignore_world clients ->
   collected clients (pre ++ table :: post) w
   = collected clients (pre ++ post) w) /\
  map fst after_it = nonblank post /\
  result (collect clients (pre ++ table :: post) [] w)
  = inr (collected clients pre w ++ points_of after_it) /\
  (forall (next : str) (post' : list str) (count : Z),
      post = next :: post' ->
      strip next <> [] ->
      result (scan_count clients (strip next) w2) = inr count ->
      result (collect clients (pre ++ table :: post) [] w)
      = inr (collected clients pre w
             ++ {| MetricName := lit "ItemCount";
                   Dimensions := [{| Name := lit "TableName";
                                     DimValue := strip next |}];
                   Value := count;
                   Unit := lit "Count" |}
             :: collected clients post'
                  (world (scan_count clients (strip next) w2)))) /\
  (TABLES environ = pre ++ table :: post ->
   Forall accepted
          (submissions
             (trace (lambda_handler clients environ event context w))) ->
   concat (batches_sent
             (trace (lambda_handler clients environ event context w)))
   = collected clients pre w ++ points_of after_it).
Proof.
  intros before after_it Hne Hp Hs.
  pose proof (scan_count_raises clients _ _ _ _ _ _ _ Hp Hs) as Hsc.
  assert (Hr : result (scan_count clients (strip table) (world before)) = inl e2)
    by now rewrite Hsc.
  assert (Hstep : forall tables,
             collected clients (table :: tables) (world before)
             = collected clients tables w2).
  { intros tables. rewrite (collected_failed _ _ _ _ _ Hne Hr).
    now rewrite Hsc. }
  assert (Happ : collected clients (pre ++ table :: post) w
                 = collected clients pre w ++ collected clients post w2).
  { rewrite collected_app. fold before. now rewrite Hstep. }
  assert (Hres : forall tables,
             result (collect clients tables [] w)
             = inr (collected clients tables w)).
  { intros tables. now rewrite collect_collected. }
  destruct (collect_table_records clients post w2) as [Hrec Hpts].
  fold after_it in Hrec, Hpts.
  split; [|split; [|split; [|split; [|split; [|split; [|split; [|split]]]]]]].
  - rewrite collected_app. fold before. rewrite Hstep, collected_nil.
    apply app_nil_r.
  - rewrite collect_app. fold before. cbn [app].
    rewrite (collect_failed clients table post _ _ e2 Hne Hr).
    rewrite after_after, Hsc. cbn [trace world]. reflexivity.
  - rewrite collect_app. reflexivity.
  - exact Happ.
  - intros Hign. rewrite Happ, collected_app. f_equal.
    now apply collected_ignores_world.
  - exact Hrec.
  - now rewrite Hres, Happ, Hpts.
  - intros next post' count -> Hnext Hcount.
    rewrite Hres, Happ.
    now rewrite (collected_counted clients _ _ _ _ Hnext Hcount).
  - intros Ht Hall.
    rewrite (accepted_run_sends_collected event context w Hall).
    now rewrite Ht, Happ, Hpts.
Qed.

(** C5. When the paginated count of a table fails and the single scan
    answers, [scan_count] returns the count of that answer, whatever
    pages came before the failure, and the table contributes the data
    point with that value: the loop appends it to the list, it is in the
    list the loop ends with, right after the points of the tables
    before, and a run whose submissions are all accepted hands it to
    the metrics sink. *)
Theorem fallback_count_is_published
        {E C : Type} (event : E) (context : C)
        (pre : list str) (w0 : World)
        (table : str) (tables : list str) (metric_data : list MetricDatum)
        (w w1 w2 : World) (pages : list Page) (e : Exception) (resp : Page) :
  let datum := {| MetricName := lit "ItemCount";
                  Dimensions := [{| Name := lit "TableName";
                                    DimValue := strip table |}];
                  Value := page_count resp;
                  Unit := lit "Count" |} in
  strip table <> [] ->
  paginate_scan clients (strip table) w = (pages, Some e, w1) ->
  scan clients (strip table) w1 = (inr resp, w2) ->
  result (scan_count clients (strip table) w) = inr (page_count resp) /\
  collect clients (table :: tables) metric_data w
  = after [DynamoDBPaginateScan (strip table) pages (Some e);
           DynamoDBScan (strip table) (inr resp);
           Log (TableScanCount (strip table) (page_count resp))]
      (collect clients tables (metric_data ++ [datum]) w2) /\
  result (collect clients (table :: tables) metric_data w)
  = inr (metric_data ++ datum :: collected clients tables w2) /\
  (world (collect clients pre [] w0) = w ->
   result (collect clients (pre ++ table :: tables) [] w0)
   = inr (collected clients pre w0 ++ datum :: collected clients tables w2)) /\
  (world (collect clients pre [] w0) = w ->
   TABLES environ = pre ++ table :: tables ->
   Forall accepted
          (submissions
             (trace (lambda_handler clients environ event context w0))) ->
   In datum
      (concat (batches_sent
                 (trace (lambda_handler clients environ event context w0))))).
Proof.
  intros datum Hne Hp Hs.
  pose proof (scan_count_fallback clients _ _ _ _ _ _ _ Hp Hs) as Hsc.
  assert (Hr : result (scan_count clients (strip table) w)
               = inr (page_count resp)) by now rewrite Hsc.
  assert (Hcol : collected clients (table :: tables) w
                 = datum :: collected clients tables w2).
  { rewrite (collected_counted clients _ _ _ _ Hne Hr). now rewrite Hsc. }
  assert (Hall : world (collect clients pre [] w0) = w ->
                 collected clients (pre ++ table :: tables) w0
                 = collected clients pre w0
                   ++ datum :: collected clients tables w2).
  { intros Hw. now rewrite collected_app, Hw, Hcol. }
  split; [exact Hr|]. split; [|split; [|split]].
  - rewrite (collect_counted clients table tables _ _ _ Hne Hr).
    rewrite Hsc. reflexivity.
  - now rewrite collect_collected, Hcol.
  - intros Hw. now rewrite collect_collected, (Hall Hw).
  - intros Hw Ht Hacc.
    rewrite (accepted_run_sends_collected event context w0 Hacc).
    rewrite Ht, (Hall Hw). apply in_or_app. right. now left.
Qed.

(** C6. When the paginated count of a table runs to its end,
    [scan_count] returns the sum of the counts of all its pages, a page
    without a count adding 0, and the table contributes the data point
    named "ItemCount" with the single dimension TableName = the trimmed
    table name, that sum as value and the unit "Count": the loop appends
    it to the list, it is in the list the loop ends with, right after
    the points of the tables before, and a run whose submissions are
    all accepted hands it to the metrics sink. *)
Theorem paginated_count_is_published
        {E C : Type} (event : E) (context : C)
        (pre : list str) (w0 : World)
        (table : str) (tables : list str) (metric_data : list MetricDatum)
        (w w1 : World) (pages : list Page) :
  let datum := {| MetricName := lit "ItemCount";
                  Dimensions := [{| Name := lit "TableName";
                                    DimValue := strip table |}];
                  Value := sum_of_page_counts pages;
                  Unit := lit "Count" |} in
  strip table <> [] ->
  paginate_scan clients (strip table) w = (pages, None, w1) ->
  result (scan_count clients (strip table) w)
  = inr (sum_of_page_counts pages) /\
  collect clients (table :: tables) metric_data w
  = after [DynamoDBPaginateScan (strip table) pages None;
           Log (TableScanCount (strip table) (sum_of_page_counts pages))]
      (collect clients tables (metric_data ++ [datum]) w1) /\
  result (collect clients (table :: tables) metric_data w)
  = inr (metric_data ++ datum :: collected clients tables w1) /\
  (world (collect clients pre [] w0) = w ->
   result (collect clients (pre ++ table :: tables) [] w0)
   = inr (collected clients pre w0 ++ datum :: collected clients tables w1)) /\
  (world (collect clients pre [] w0) = w ->
   TABLES environ = pre ++ table :: tables ->
   Forall accepted
          (submissions
             (trace (lambda_handler clients environ event context w0))) ->
   In datum
      (concat (batches_sent
                 (trace (lambda_handler clients environ event context w0))))).
Proof.
  intros datum Hne Hp.
  pose proof (scan_count_paginated clients _ _ _ _ Hp) as Hsc.
  assert (Hr : result (scan_count clients (strip table) w)
               = inr (sum_of_page_counts pages)) by now rewrite Hsc.
  assert (Hcol : collected clients (table :: tables) w
                 = datum :: collected clients tables w1).
  { rewrite (collected_counted clients _ _ _ _ Hne Hr). now rewrite Hsc. }
  assert (Hall : world (collect clients pre [] w0) = w ->
                 collected clients (pre ++ table :: tables) w0
                 = collected clients pre w0
                   ++ datum :: collected clients tables w1).
  { intros Hw. now rewrite collected_app, Hw, Hcol. }
  split; [exact Hr|]. split; [|split; [|split]].
  - rewrite (collect_counted clients table tables _ _ _ Hne Hr).
    rewrite Hsc. reflexivity.
  - now rewrite collect_collected, Hcol.
  - intros Hw. now rewrite collect_collected, (Hall Hw).
  - intros Hw Ht Hacc.
    rewrite (accepted_run_sends_collected event context w0 Hacc).
    rewrite Ht, (Hall Hw). apply in_or_app. right. now left.
Qed.

(** C7 (amended). When the paginated count and the single scan both fail
    for a table, [scan_count] raises the exception the single scan
    raised, which carries the cause of that failure.  [scan_count] puts
    no table name into it: whenever the single scan of another table
    fails with the same exception, the exception raised is the same, so
    it names the table only if the exception of the remote store does.
    The caller logs the exception next to the stripped table name and
    goes on.  (The exception is named here by the one the single scan
    raised; Python also records, as its context, the exception of the
    pagination during whose handling it was raised.) *)
Theorem both_queries_fail_raises_scan_error
        (table : str) (tables : list str) (metric_data : list MetricDatum)
        (w w1 w2 : World) (pages : list Page) (e1 e2 : Exception) :
  strip table <> [] ->
  paginate_scan clients (strip table) w = (pages, Some e1, w1) ->
  scan clients (strip table) w1 = (inl e2, w2) ->
  result (scan_count clients (strip table) w) = inl e2 /\
  (forall (other : str) (w' w1' w2' : World) (pages' : list Page)
          (e1' : Exception),
      paginate_scan clients other w' = (pages', Some e1', w1') ->
      scan clients other w1' = (inl e2, w2') ->
      result (scan_count clients other w')
      = result (scan_count clients (strip table) w)) /\
  collect clients (table :: tables) metric_data w
  = after [DynamoDBPaginateScan (strip table) pages (Some e1);
           DynamoDBScan (strip table) (inl e2);
           Log (ScanCountFailed (strip table) e2)]
      (collect clients tables metric_data w2).
Proof.
  intros Hne Hp Hs.
  pose proof (scan_count_raises clients _ _ _ _ _ _ _ Hp Hs) as Hsc.
  assert (Hr : result (scan_count clients (strip table) w) = inl e2)
    by now rewrite Hsc.
  split; [exact Hr|]. split.
  - intros other w' w1' w2' pages' e1' Hp' Hs'.
    rewrite Hr.
    now rewrite (scan_count_raises clients _ _ _ _ _ _ _ Hp' Hs').
  - rewrite (collect_failed clients table tables _ _ _ Hne Hr).
    rewrite Hsc. reflexivity.
Qed.

(** C8. Whatever the configuration, the world and the answers of the
    two services, the entry point raises nothing: it returns a dict
    whose only key is "status", with the value "ok", "error" or
    "no-tables". *)
Theorem lambda_handler_returns_a_status
        {E C : Type} (event : E) (context : C) (w : World) :
  exists s,
    result (lambda_handler clients environ event context w)
    = inr [(lit "status", s)] /\
    (s = lit "ok" \/ s = lit "error" \/ s = lit "no-tables").
Proof.
  destruct (environ_get environ "TABLES" (lit "")) as [|c raw] eqn:Eraw.
  - rewrite (lambda_handler_no_tables clients environ event context w Eraw).
    exists (lit "no-tables"). auto.
  - assert (Hne : environ_get environ "TABLES" (lit "") <> [])
      by (rewrite Eraw; discriminate).
    destruct (publish_returns clients environ
                (collected clients (TABLES environ) w)
                (world (collect clients (TABLES environ) [] w))) as [ok Hok].
    rewrite (lambda_handler_runs clients environ event context w ok Hne Hok).
    destruct ok; [exists (lit "ok") | exists (lit "error")]; auto.
Qed.

(** C9. When the table list passes the guard and no count succeeds
    (every entry is blank or its count fails), the metrics sink is not
    called and the run returns status "ok". *)
Theorem nothing_counted_returns_ok
        {E C : Type} (event : E) (context : C) (w : World) :
  environ_get environ "TABLES" (lit "") <> [] ->
  successful_table_count clients (TABLES environ) w = 0 ->
  submissions (trace (lambda_handler clients environ event context w)) = [] /\
  result (lambda_handler clients environ event context w)
  = inr [(lit "status", lit "ok")].
Proof.
  intros Hne Hz.
  assert (Hd : collected clients (TABLES environ) w = []).
  { apply length_zero_iff_nil. now rewrite collected_length. }
  rewrite (lambda_handler_runs clients environ event context w true Hne);
    rewrite Hd, publish_nil; [|reflexivity].
  cbn [trace result ret]. rewrite app_nil_r.
  split; [apply collect_submissions | reflexivity].
Qed.

(** C10. The event and the context do not matter: two invocations with
    the same configuration, from the same world, return the same result,
    make the same calls in the same order and leave the same world. *)
Theorem lambda_handler_ignores_event
        {E1 C1 E2 C2 : Type} (event1 : E1) (context1 : C1)
        (event2 : E2) (context2 : C2) (w : World) :
  lambda_handler clients environ event1 context1 w
  = lambda_handler clients environ event2 context2 w.
Proof. reflexivity. Qed.

End Properties.

(** ** Runs against scripted services *)

Module Runs.

Import Mock.

(** Two tables: one call to the metrics sink, two points, "ok". *)
Example users_and_orders :
  let o := lambda_handler (clients users_orders scan_fails put_ok)
                          (environ "Users, Orders") tt tt 0 in
  submissions (trace o)
  = [(lit "examapp/DynamoDB", [point "Users" 1532; point "Orders" 47], None)]
  /\ result o = inr [(lit "status", lit "ok")].
Proof. vm_compute. split; reflexivity. Qed.

(** Twenty-one tables: a batch of 20, then a batch of 1, "ok". *)
Example twenty_one_tables :
  let o := lambda_handler all_well
                          (environ twenty_one) tt tt 0 in
  map (@length _) (batches_sent (trace o)) = [20; 1]
  /\ Forall accepted (submissions (trace o))
  /\ result o = inr [(lit "status", lit "ok")].
Proof. vm_compute. repeat split; repeat constructor. Qed.

(** An empty table list: "no-tables", no call. *)
Example empty_table_list :
  let o := lambda_handler all_well
                          (environ "") tt tt 0 in
  store_calls (trace o) = [] /\ submissions (trace o) = []
  /\ result o = inr [(lit "status", lit "no-tables")].
Proof. vm_compute. repeat split. Qed.

End Runs.

(** C1, as stated, fails: the table list " , " is made of whitespace and
    a comma only, yet the run returns status "ok", not "no-tables". *)
Lemma whitespace_table_list_returns_ok :
  blank_only (environ_get (Mock.environ " , ") "TABLES" (lit "")) /\
  result (lambda_handler Mock.store_down (Mock.environ " , ") tt tt 0)
  = inr [(lit "status", lit "ok")] /\
  result (lambda_handler Mock.store_down (Mock.environ " , ") tt tt 0)
  <> inr [(lit "status", lit "no-tables")].
Proof.
  split; [|split].
  - vm_compute.
    repeat (constructor; [first [left; reflexivity | right; reflexivity]|]).
    constructor.
  - reflexivity.
  - vm_compute. discriminate.
Qed.

Lemma blank_table_list_makes_no_calls_witness :
  blank_only (environ_get (Mock.environ " , ") "TABLES" (lit "")) /\
  store_calls
    (trace (lambda_handler Mock.store_down (Mock.environ " , ") tt tt 0)) = [] /\
  submissions
    (trace (lambda_handler Mock.store_down (Mock.environ " , ") tt tt 0)) = [].
Proof.
  assert (Hb : blank_only (environ_get (Mock.environ " , ") "TABLES" (lit ""))).
  { vm_compute.
    repeat (constructor; [first [left; reflexivity | right; reflexivity]|]).
    constructor. }
  split; [exact Hb|].
  split.
  - exact (proj1 (blank_table_list_makes_no_calls
                    Mock.store_down (Mock.environ " , ") tt tt 0 Hb)).
  - exact (proj1 (proj2 (blank_table_list_makes_no_calls
                           Mock.store_down (Mock.environ " , ") tt tt 0 Hb))).
Defined.

(** C2, as stated, fails: with 21 tables counted and the first
    submission refused, the metrics sink is called once, and
    ceil(21 / 20) = 2. *)
Lemma refused_batch_ends_the_submissions :
  successful_table_count (Mock.sink_refuses 0)
                         (TABLES (Mock.environ Mock.twenty_one)) 0 = 21 /\
  length (submissions
            (trace (lambda_handler (Mock.sink_refuses 0)
                                   (Mock.environ Mock.twenty_one) tt tt 0))) = 1 /\
  length (submissions
            (trace (lambda_handler (Mock.sink_refuses 0)
                                   (Mock.environ Mock.twenty_one) tt tt 0)))
  <> ceil_div (successful_table_count (Mock.sink_refuses 0)
                 (TABLES (Mock.environ Mock.twenty_one)) 0) 20.
Proof. vm_compute. repeat split. discriminate. Qed.

Lemma batches_sent_by_publish_counts_witness :
  Forall accepted
         (submissions
            (trace (publish_counts Mock.all_well
                                   (Mock.environ Mock.twenty_one) 0))) /\
  length (submissions
            (trace (publish_counts Mock.all_well
                                   (Mock.environ Mock.twenty_one) 0))) = 2.
Proof.
  assert (Ha : Forall accepted
                 (submissions
                    (trace (publish_counts Mock.all_well
                                           (Mock.environ Mock.twenty_one) 0))))
    by (vm_compute; repeat constructor).
  split; [exact Ha|].
  exact (proj1 (proj2 (proj2 (proj2 (proj2 (proj2
           (batches_sent_by_publish_counts
              Mock.all_well (Mock.environ Mock.twenty_one) 0))))) Ha)).
Defined.

Lemma failed_batch_gives_error_witness :
  environ_get (Mock.environ Mock.twenty_one) "TABLES" (lit "") <> [] /\
  Exists failed
         (submissions
            (trace (lambda_handler (Mock.sink_refuses 1)
                                   (Mock.environ Mock.twenty_one) tt tt 0))) /\
  result (lambda_handler (Mock.sink_refuses 1)
                         (Mock.environ Mock.twenty_one) tt tt 0)
  = inr [(lit "status", lit "error")].
Proof.
  assert (Hne : environ_get (Mock.environ Mock.twenty_one) "TABLES" (lit "") <> [])
    by (vm_compute; discriminate).
  assert (Hf : Exists failed
                 (submissions
                    (trace (lambda_handler (Mock.sink_refuses 1)
                              (Mock.environ Mock.twenty_one) tt tt 0)))).
  { vm_compute. apply Exists_cons_tl, Exists_cons_hd. discriminate. }
  split; [exact Hne|]. split; [exact Hf|].
  exact (proj1 (proj1 (failed_batch_gives_error
                         (Mock.sink_refuses 1) (Mock.environ Mock.twenty_one)
                         tt tt 0 Hne) Hf)).
Defined.

Lemma failed_table_is_skipped_witness :
  strip (lit " B ") <> [] /\
  paginate_scan Mock.b_down (strip (lit " B "))
                (world (collect Mock.b_down [lit "A"] [] 0))
  = ([Mock.page 7], Some Mock.throttled, 0) /\
  scan Mock.b_down (strip (lit " B ")) 0 = (inl Mock.not_found, 0) /\
  answers_ignore_world Mock.b_down /\
  TABLES (Mock.environ "A, B ,C") = [lit "A"] ++ lit " B " :: [lit "C"] /\
  Forall accepted
         (submissions
            (trace (lambda_handler Mock.b_down (Mock.environ "A, B ,C")
                                   tt tt 0))) /\
  collected Mock.b_down ([lit "A"] ++ lit " B " :: [lit "C"]) 0
  = collected Mock.b_down ([lit "A"] ++ [lit "C"]) 0 /\
  result (collect Mock.b_down ([lit "A"] ++ lit " B " :: [lit "C"]) [] 0)
  = inr [Mock.point "A" 5; Mock.point "C" 5] /\
  concat (batches_sent
            (trace (lambda_handler Mock.b_down (Mock.environ "A, B ,C")
                                   tt tt 0)))
  = [Mock.point "A" 5; Mock.point "C" 5].
Proof.
  assert (Hne : strip (lit " B ") <> []) by (vm_compute; discriminate).
  assert (Hign : answers_ignore_world Mock.b_down)
    by (intros t w w'; split; reflexivity).
  assert (Hacc : Forall accepted
                   (submissions
                      (trace (lambda_handler Mock.b_down
                                (Mock.environ "A, B ,C") tt tt 0))))
    by (vm_compute; repeat constructor).
  pose proof (failed_table_is_skipped
                Mock.b_down (Mock.environ "A, B ,C") tt tt
                [lit "A"] [lit "C"] (lit " B ") 0 0 0
                [Mock.page 7] Mock.throttled Mock.not_found
                Hne eq_refl eq_refl)
    as (_ & _ & _ & _ & Hsame & _ & Hresult & _ & Hsent).
  split; [exact Hne|]. split; [reflexivity|]. split; [reflexivity|].
  split; [exact Hign|]. split; [reflexivity|]. split; [exact Hacc|].
  split; [exact (Hsame Hign)|]. split; [exact Hresult|].
  exact (Hsent eq_refl Hacc).
Defined.

Lemma fallback_count_is_published_witness :
  strip (lit "B") <> [] /\
  paginate_scan Mock.b_degraded (strip (lit "B")) 0
  = ([Mock.page 7], Some Mock.throttled, 0) /\
  scan Mock.b_degraded (strip (lit "B")) 0 = (inr (Mock.page 9), 0) /\
  world (collect Mock.b_degraded [lit "A"] [] 0) = 0 /\
  TABLES (Mock.environ "A,B") = [lit "A"] ++ lit "B" :: [] /\
  Forall accepted
         (submissions
            (trace (lambda_handler Mock.b_degraded (Mock.environ "A,B")
                                   tt tt 0))) /\
  result (scan_count Mock.b_degraded (strip (lit "B")) 0) = inr 9%Z /\
  result (collect Mock.b_degraded [lit "B"] [] 0) = inr [Mock.point "B" 9] /\
  result (collect Mock.b_degraded ([lit "A"] ++ lit "B" :: []) [] 0)
  = inr [Mock.point "A" 5; Mock.point "B" 9] /\
  In (Mock.point "B" 9)
     (concat (batches_sent
                (trace (lambda_handler Mock.b_degraded (Mock.environ "A,B")
                                       tt tt 0)))).
Proof.
  assert (Hne : strip (lit "B") <> []) by (vm_compute; discriminate).
  assert (Hacc : Forall accepted
                   (submissions
                      (trace (lambda_handler Mock.b_degraded
                                (Mock.environ "A,B") tt tt 0))))
    by (vm_compute; repeat constructor).
  pose proof (fallback_count_is_published
                Mock.b_degraded (Mock.environ "A,B") tt tt [lit "A"] 0
                (lit "B") [] [] 0 0 0
                [Mock.page 7] Mock.throttled (Mock.page 9)
                Hne eq_refl eq_refl)
    as (Hcount & _ & Hresult & Hall & Hsent).
  split; [exact Hne|]. split; [reflexivity|]. split; [reflexivity|].
  split; [reflexivity|]. split; [reflexivity|]. split; [exact Hacc|].
  split; [exact Hcount|]. split; [exact Hresult|].
  split; [exact (Hall eq_refl)|].
  exact (Hsent eq_refl eq_refl Hacc).
Defined.

Lemma paginated_count_is_published_witness :
  strip (lit " Users") <> [] /\
  paginate_scan (Mock.clients Mock.users_orders Mock.scan_fails Mock.put_ok)
                (strip (lit " Users")) 0
  = ([Mock.page 1000; Mock.page 532], None, 0) /\
  world (collect (Mock.clients Mock.users_orders Mock.scan_fails Mock.put_ok)
                 [] [] 0) = 0 /\
  TABLES (Mock.environ " Users,Orders") = [] ++ lit " Users" :: [lit "Orders"] /\
  Forall accepted
         (submissions
            (trace (lambda_handler
                      (Mock.clients Mock.users_orders Mock.scan_fails Mock.put_ok)
                      (Mock.environ " Users,Orders") tt tt 0))) /\
  result (scan_count (Mock.clients Mock.users_orders Mock.scan_fails Mock.put_ok)
                     (strip (lit " Users")) 0)
  = inr 1532%Z /\
  result (collect (Mock.clients Mock.users_orders Mock.scan_fails Mock.put_ok)
                  (lit " Users" :: [lit "Orders"]) [] 0)
  = inr [Mock.point "Users" 1532; Mock.point "Orders" 47] /\
  In (Mock.point "Users" 1532)
     (concat (batches_sent
                (trace (lambda_handler
                          (Mock.clients Mock.users_orders Mock.scan_fails
                                        Mock.put_ok)
                          (Mock.environ " Users,Orders") tt tt 0)))).
Proof.
  assert (Hne : strip (lit " Users") <> []) by (vm_compute; discriminate).
  assert (Hacc : Forall accepted
                   (submissions
                      (trace (lambda_handler
                                (Mock.clients Mock.users_orders Mock.scan_fails
                                              Mock.put_ok)
                                (Mock.environ " Users,Orders") tt tt 0))))
    by (vm_compute; repeat constructor).
  pose proof (paginated_count_is_published
                (Mock.clients Mock.users_orders Mock.scan_fails Mock.put_ok)
                (Mock.environ " Users,Orders") tt tt [] 0
                (lit " Users") [lit "Orders"] [] 0 0
                [Mock.page 1000; Mock.page 532]
                Hne eq_refl)
    as (Hcount & _ & Hresult & _ & Hsent).
  split; [exact Hne|]. split; [reflexivity|]. split; [reflexivity|].
  split; [reflexivity|]. split; [exact Hacc|].
  split; [exact Hcount|]. split; [exact Hresult|].
  exact (Hsent eq_refl eq_refl Hacc).
Defined.

(** C7, as stated, fails: [scan_count] raises the same exception for
    "Users" and for "Orders", so nothing in the exception tells which
    table it was raised for. *)
Lemma raised_error_does_not_name_the_table :
  result (scan_count Mock.store_down (lit "Users") 0)
  = result (scan_count Mock.store_down (lit "Orders") 0) /\
  ~ exists table_of : Mock.BotoError -> str,
      forall (table : str) (w : Mock.World) (e : Mock.BotoError),
        result (scan_count Mock.store_down table w) = inl e ->
        table_of e = table.
Proof.
  split; [reflexivity|].
  intros [table_of H].
  pose proof (H (lit "Users") 0 Mock.not_found eq_refl) as Hu.
  pose proof (H (lit "Orders") 0 Mock.not_found eq_refl) as Ho.
  rewrite Hu in Ho. vm_compute in Ho. discriminate Ho.
Qed.

Lemma both_queries_fail_raises_scan_error_witness :
  strip (lit "Users") <> [] /\
  paginate_scan Mock.store_down (strip (lit "Users")) 0
  = ([], Some Mock.throttled, 0) /\
  scan Mock.store_down (strip (lit "Users")) 0 = (inl Mock.not_found, 0) /\
  paginate_scan Mock.store_down (lit "Orders") 0
  = ([], Some Mock.throttled, 0) /\
  scan Mock.store_down (lit "Orders") 0 = (inl Mock.not_found, 0) /\
  result (scan_count Mock.store_down (strip (lit "Users")) 0)
  = inl Mock.not_found /\
  result (scan_count Mock.store_down (lit "Orders") 0)
  = result (scan_count Mock.store_down (strip (lit "Users")) 0).
Proof.
  assert (Hne : strip (lit "Users") <> []) by (vm_compute; discriminate).
  pose proof (both_queries_fail_raises_scan_error
                Mock.store_down (lit "Users") [] [] 0 0 0 []
                Mock.throttled Mock.not_found Hne eq_refl eq_refl)
    as (Hraised & Hsame & _).
  split; [exact Hne|]. split; [reflexivity|]. split; [reflexivity|].
  split; [reflexivity|]. split; [reflexivity|]. split; [exact Hraised|].
  exact (Hsame (lit "Orders") 0 0 0 [] Mock.throttled eq_refl eq_refl).
Defined.

Lemma nothing_counted_returns_ok_witness :
  environ_get (Mock.environ "A,B") "TABLES" (lit "") <> [] /\
  successful_table_count Mock.store_down (TABLES (Mock.environ "A,B")) 0 = 0 /\
  result (lambda_handler Mock.store_down (Mock.environ "A,B") tt tt 0)
  = inr [(lit "status", lit "ok")].
Proof.
  assert (Hne : environ_get (Mock.environ "A,B") "TABLES" (lit "") <> [])
    by (vm_compute; discriminate).
  split; [exact Hne|]. split; [reflexivity|].
  exact (proj2 (nothing_counted_returns_ok
                  Mock.store_down (Mock.environ "A,B") tt tt 0 Hne eq_refl)).
Defined.

(** * Beyond the claims *)

(** ** Start indices and full batches *)

(** X13. For a positive step, [range(start, stop, step)] holds exactly
    the numbers from [start] up to, not including, [stop] that are a
    multiple of [step] away from [start]. *)
Theorem In_range (start stop step x : nat) :
  0 < step ->
  In x (range start stop step)
  <-> start <= x < stop /\ (x - start) mod step = 0.
Proof.
  intros Hstep. unfold range. rewrite in_map_iff.
  set (q := (stop - start + step - 1) / step).
  pose proof (Nat.div_mod_eq (stop - start + step - 1) step) as E.
  pose proof (Nat.mod_upper_bound (stop - start + step - 1) step
                                  ltac:(lia)) as B.
  fold q in E.
  split.
  - intros (k & <- & Hk). apply in_seq in Hk.
    assert (Hle : step * S k <= step * q) by (apply Nat.mul_le_mono_l; lia).
    rewrite Nat.mul_succ_r in Hle. rewrite (Nat.mul_comm k step).
    split; [lia|].
    replace (start + step * k - start) with (k * step) by lia.
    apply Nat.Div0.mod_mul.
  - intros [Hx Hmod].
    pose proof (Nat.div_mod_eq (x - start) step) as Ex. rewrite Hmod in Ex.
    exists ((x - start) / step). rewrite (Nat.mul_comm _ step).
    split; [lia|]. apply in_seq.
    destruct (Nat.lt_ge_cases ((x - start) / step) q) as [Hlt|Hge]; [lia|].
    assert (Hle : step * q <= step * ((x - start) / step))
      by (apply Nat.mul_le_mono_l; exact Hge).
    lia.
Qed.

(** Every batch of the cut but the last holds exactly twenty points. *)
Lemma batch_full (metric_data : list MetricDatum) (k : nat) :
  S k < ceil_div (length metric_data) 20 ->
  length (nth k (batches metric_data) []) = 20.
Proof.
  intros Hk. rewrite batches_as_chunks.
  set (f := fun k => firstn 20 (skipn (k * 20) metric_data)).
  replace (@nil MetricDatum) with (f (ceil_div (length metric_data) 20)).
  - rewrite map_nth, seq_nth by lia. unfold f.
    rewrite length_firstn, length_skipn.
    pose proof (ceil_div_twenty (length metric_data)). lia.
  - unfold f. rewrite skipn_all2; [now rewrite firstn_nil|].
    apply ceil_div_twenty.
Qed.

(** ** More properties of a run *)

Section MoreProperties.
Context {World Exception : Type}.
Variable clients : Clients World Exception.
Variable environ : Environ.

(** X1. Every call to the metrics sink names the namespace of the
    configuration: the value of NAMESPACE, or "examapp/DynamoDB" when
    the variable is unset. *)
Theorem every_submission_names_the_namespace
        {E C : Type} (event : E) (context : C) (w : World) :
  Forall (fun s => fst (fst s)
                   = match environ "NAMESPACE"%string with
                     | Some v => v
                     | None => lit "examapp/DynamoDB"
                     end)
         (submissions (trace (lambda_handler clients environ event context w))).
Proof.
  change (match environ "NAMESPACE"%string with
          | Some v => v
          | None => lit "examapp/DynamoDB"
          end) with (NAMESPACE environ).
  destruct (lambda_handler_phases clients environ event context w)
    as [Hraw -> | ok Hraw ->]; cbn [trace]; [constructor|].
  rewrite submissions_app, collect_submissions. apply publish_namespace.
Qed.

(** X2. The remote store is asked for one paginated scan per entry of
    the table list that is not blank, under the stripped name, in the
    order of the list, an entry listed twice being scanned twice. *)
Theorem one_paginated_scan_per_table
        {E C : Type} (event : E) (context : C) (w : World) :
  map fst (paginated (trace (lambda_handler clients environ event context w)))
  = nonblank (TABLES environ).
Proof.
  destruct (lambda_handler_phases clients environ event context w)
    as [Hraw -> | ok Hraw ->]; cbn [trace].
  - now rewrite (TABLES_unset environ Hraw).
  - rewrite paginated_app, map_app, collect_paginated.
    rewrite (proj1 (publish_trace clients environ _ _)). apply app_nil_r.
Qed.

(** X3. The single scans of a run are, in order, those of the tables
    whose paginated scan raised: the fallback is tried once for each of
    them, for the same name, and for no other table. *)
Theorem single_scan_only_after_failed_pagination
        {E C : Type} (event : E) (context : C) (w : World) :
  scanned (trace (lambda_handler clients environ event context w))
  = raised_for
      (paginated (trace (lambda_handler clients environ event context w))).
Proof.
  destruct (lambda_handler_phases clients environ event context w)
    as [Hraw -> | ok Hraw ->]; cbn [trace]; [reflexivity|].
  destruct (publish_trace clients environ
              (collected clients (TABLES environ) w)
              (world (collect clients (TABLES environ) [] w)))
    as (Hp & Hs & _).
  rewrite scanned_app, paginated_app, Hp, Hs, !app_nil_r.
  apply collect_scanned.
Qed.

(** X4. Every entry of the table list that is not blank gets exactly one
    log record, a count or a failure, under its stripped name and in the
    order of the list: no table is dropped without a record. *)
Theorem one_log_record_per_table
        {E C : Type} (event : E) (context : C) (w : World) :
  map fst (table_records
             (trace (lambda_handler clients environ event context w)))
  = nonblank (TABLES environ).
Proof.
  destruct (lambda_handler_phases clients environ event context w)
    as [Hraw -> | ok Hraw ->]; cbn [trace].
  - now rewrite (TABLES_unset environ Hraw).
  - destruct (publish_trace clients environ
                (collected clients (TABLES environ) w)
                (world (collect clients (TABLES environ) [] w)))
      as (_ & _ & Hr & _).
    rewrite table_records_app, Hr, app_nil_r.
    apply collect_table_records.
Qed.

(** X5. The data points handed to the metrics sink are, in order, the
    points of the tables logged with a count, with the logged counts: a
    leading part of them, and all of them when every submission is
    accepted. *)
Theorem points_sent_are_the_counts_logged
        {E C : Type} (event : E) (context : C) (w : World) :
  let t := trace (lambda_handler clients environ event context w) in
  (exists rest,
      points_of (table_records t) = concat (batches_sent t) ++ rest) /\
  (Forall accepted (submissions t) ->
   concat (batches_sent t) = points_of (table_records t)).
Proof.
  intros t. subst t.
  destruct (lambda_handler_phases clients environ event context w)
    as [Hraw -> | ok Hraw ->]; cbn [trace].
  - split; [now exists []|reflexivity].
  - set (metric_data := collected clients (TABLES environ) w).
    set (w1 := world (collect clients (TABLES environ) [] w)).
    destruct (publish_trace clients environ metric_data w1)
      as (_ & _ & Hr & _ & _).
    unfold batches_sent.
    rewrite table_records_app, submissions_app, Hr, app_nil_r.
    rewrite collect_submissions. cbn [app].
    rewrite <- (proj2 (collect_table_records clients (TABLES environ) w)).
    fold metric_data.
    destruct (publish_ends clients environ metric_data w1)
      as [sent Ht Hs Ha Hr' | k sent b e Hk Ht Hs Ha Hr']; rewrite Ht.
    + rewrite submissions_put_events, Hs, concat_batches.
      split; [exists []; now rewrite app_nil_r | reflexivity].
    + change [CloudWatchPutMetricData (NAMESPACE environ) b (Some e);
              Log (PutMetricDataFailed e)]
        with (map put_event [(NAMESPACE environ, b, Some e)]
              ++ [Log (PutMetricDataFailed e)]).
      rewrite app_assoc, <- map_app, submissions_app, submissions_put_events.
      cbn [submissions]. rewrite app_nil_r, map_app. cbn [map fst snd].
      rewrite Hs. split; [apply concat_firstn_batches|].
      intros Hall. apply Forall_app in Hall. destruct Hall as [_ Hall].
      inversion Hall as [|? ? Hx _]; subst. discriminate Hx.
Qed.

(** X6. A run counts before it publishes: its trace splits in two, the
    first part without any call to the metrics sink and the second
    without any call to the remote store. *)
Theorem store_calls_come_before_submissions
        {E C : Type} (event : E) (context : C) (w : World) :
  exists before after,
    trace (lambda_handler clients environ event context w) = before ++ after /\
    submissions before = [] /\
    store_calls after = [].
Proof.
  destruct (lambda_handler_phases clients environ event context w)
    as [Hraw -> | ok Hraw ->]; cbn [trace].
  - exists [Log NoTablesConfigured], []. repeat split.
  - eexists _, _. split; [reflexivity|].
    split; [apply collect_submissions|].
    apply (publish_trace clients environ).
Qed.

(** X7. The run returns status "no-tables" exactly when TABLES is unset
    or empty; it then logs one record, makes no call and leaves the
    world as it was. *)
Theorem no_tables_iff_unset_or_empty
        {E C : Type} (event : E) (context : C) (w : World) :
  (result (lambda_handler clients environ event context w)
   = inr [(lit "status", lit "no-tables")]
   <-> environ "TABLES"%string = None \/ environ "TABLES"%string = Some []) /\
  (result (lambda_handler clients environ event context w)
   = inr [(lit "status", lit "no-tables")] ->
   trace (lambda_handler clients environ event context w)
   = [Log NoTablesConfigured] /\
   world (lambda_handler clients environ event context w) = w).
Proof.
  assert (Hget : environ_get environ "TABLES" (lit "") = []
                 <-> environ "TABLES"%string = None \/ environ "TABLES"%string = Some []).
  { unfold environ_get. destruct (environ "TABLES"%string) as [v|].
    - split; [intros ->; now right | intros [H|H]; [discriminate|]].
      now injection H.
    - split; [now left | reflexivity]. }
  destruct (lambda_handler_phases clients environ event context w)
    as [Hraw -> | ok Hraw ->]; cbn [result trace world].
  - split; [|now split]. split; [intros _; now apply Hget | reflexivity].
  - assert (Hno : inr [(lit "status", if ok then lit "ok" else lit "error")]
                  <> (inr [(lit "status", lit "no-tables")]
                      : Exception + Response))
      by (destruct ok; vm_compute; discriminate).
    split; [|intros H; now contradiction Hno].
    split; [intros H; now contradiction Hno|].
    intros H. apply Hget in H. contradiction.
Qed.

(** X8. The table list is the value of TABLES cut at its commas: joined
    again with commas the entries give the value back, no entry holds a
    comma, and there is one entry more than there are commas, so the
    list is never empty. *)
Theorem TABLES_is_the_variable_cut_at_commas :
  join comma (TABLES environ) = environ_get environ "TABLES" (lit "") /\
  Forall (fun table => ~ In comma table) (TABLES environ) /\
  length (TABLES environ)
  = S (length (filter (fun c => char_eqb c comma)
                      (environ_get environ "TABLES" (lit "")))).
Proof.
  unfold TABLES. split; [apply join_split|].
  split; [apply split_fields_without_sep | apply length_split].
Qed.

(** X9. Every name the remote store is asked about, by a paginated or a
    single scan, is not empty and neither begins nor ends with
    whitespace. *)
Theorem scanned_names_are_trimmed
        {E C : Type} (event : E) (context : C) (w : World) :
  Forall trimmed
         (map fst (paginated
                     (trace (lambda_handler clients environ event context w))))
  /\ Forall trimmed
            (scanned (trace (lambda_handler clients environ event context w))).
Proof.
  destruct (lambda_handler_phases clients environ event context w)
    as [Hraw -> | ok Hraw ->]; cbn [trace]; [split; constructor|].
  destruct (publish_trace clients environ
              (collected clients (TABLES environ) w)
              (world (collect clients (TABLES environ) [] w)))
    as (Hp & Hs & _).
  rewrite scanned_app, paginated_app, Hp, Hs, !app_nil_r.
  assert (Hn : Forall trimmed
                 (map fst (paginated
                             (trace (collect clients (TABLES environ) [] w)))))
    by (rewrite collect_paginated; apply nonblank_trimmed).
  split; [exact Hn|].
  rewrite collect_scanned. unfold raised_for.
  rewrite Forall_forall in *. intros t Hin.
  apply in_map_iff in Hin. destruct Hin as (p & <- & Hin).
  apply filter_In in Hin. apply Hn, in_map, Hin.
Qed.

(** The batches a run sends are leading batches of the points it
    collected. *)
Lemma lambda_handler_sent {E C : Type} (event : E) (context : C) (w : World) :
  exists j,
    batches_sent (trace (lambda_handler clients environ event context w))
    = firstn j (batches (collected clients (TABLES environ) w)).
Proof.
  destruct (lambda_handler_phases clients environ event context w)
    as [Hraw -> | ok Hraw ->]; cbn [trace]; [now exists 0|].
  unfold batches_sent. rewrite submissions_app, collect_submissions.
  apply (publish_trace clients environ).
Qed.

Lemma Forall_sent (P : MetricDatum -> Prop)
      {E C : Type} (event : E) (context : C) (w : World) :
  Forall P (collected clients (TABLES environ) w) ->
  Forall P (concat (batches_sent
                      (trace (lambda_handler clients environ event context w)))).
Proof.
  intros H. destruct (lambda_handler_sent event context w) as [j ->].
  destruct (concat_firstn_batches (collected clients (TABLES environ) w) j)
    as [rest Hrest].
  rewrite Hrest in H. now apply Forall_app in H.
Qed.

(** X10. Every data point handed to the metrics sink is named
    "ItemCount", has the unit "Count" and exactly one dimension,
    TableName, whose value is the stripped name of an entry of the table
    list: not empty, without whitespace at either end. *)
Theorem points_sent_are_item_counts_of_listed_tables
        {E C : Type} (event : E) (context : C) (w : World) :
  Forall (fun d =>
            exists t,
              In t (nonblank (TABLES environ)) /\ trimmed t /\
              MetricName d = lit "ItemCount" /\
              Dimensions d = [{| Name := lit "TableName"; DimValue := t |}] /\
              Unit d = lit "Count")
         (concat (batches_sent
                    (trace (lambda_handler clients environ event context w)))).
Proof.
  apply Forall_sent.
  destruct (collect_table_records clients (TABLES environ) w) as [Hn ->].
  rewrite <- Hn.
  pose proof (nonblank_trimmed (TABLES environ)) as Ht. rewrite <- Hn in Ht.
  clear Hn.
  induction (table_records (trace (collect clients (TABLES environ) [] w)))
    as [|[t [count|]] records IH]; [constructor| |];
    inversion Ht as [|? ? Ht0 Ht1]; subst; specialize (IH Ht1);
    cbn [points_of flat_map fst snd app map].
  - constructor.
    + exists t. split; [now left|]. split; [exact Ht0|]. repeat split.
    + eapply Forall_impl; [|exact IH].
      intros d (t' & Hin & H). exists t'. split; [now right | exact H].
  - eapply Forall_impl; [|exact IH].
    intros d (t' & Hin & H). exists t'. split; [now right | exact H].
Qed.

(** X11. Blank entries and the whitespace around a name do not matter:
    two configurations whose table lists have the same stripped
    non-blank entries, and the same namespace, make [publish_counts] do
    the same calls and return the same. *)
Theorem publish_counts_reads_nonblank_entries (environ' : Environ) (w : World) :
  nonblank (TABLES environ) = nonblank (TABLES environ') ->
  NAMESPACE environ = NAMESPACE environ' ->
  publish_counts clients environ w = publish_counts clients environ' w.
Proof.
  intros Ht Hns. rewrite !publish_counts_runs.
  assert (Hc : forall env : Environ,
             collected clients (TABLES env) w
             = collected clients (nonblank (TABLES env)) w).
  { intros env. unfold collected. now rewrite collect_nonblank. }
  rewrite (Hc environ), (Hc environ'), Ht.
  rewrite (collect_nonblank clients (TABLES environ)), Ht.
  rewrite <- (collect_nonblank clients (TABLES environ')).
  now rewrite (publish_same_namespace clients environ environ').
Qed.

(** X12. Whenever a batch is sent and is not the last batch of the cut,
    it holds exactly twenty points: only the last batch of a run without
    a refused submission can be smaller. *)
Theorem batches_before_the_last_are_full
        {E C : Type} (event : E) (context : C) (w : World) (k : nat) :
  S k < ceil_div (successful_table_count clients (TABLES environ) w) 20 ->
  k < length (batches_sent
                (trace (lambda_handler clients environ event context w))) ->
  length (nth k (batches_sent
                   (trace (lambda_handler clients environ event context w)))
              [])
  = 20.
Proof.
  intros Hk Hlen.
  destruct (lambda_handler_sent event context w) as [j Hj].
  rewrite Hj in *. rewrite length_firstn in Hlen. rewrite nth_firstn.
  destruct (Nat.ltb_spec k j); [|lia].
  apply batch_full. now rewrite collected_length.
Qed.

(** X14. When the remote store never reports a negative count, no data
    point handed to the metrics sink has a negative value. *)
Theorem values_sent_are_not_negative
        {E C : Type} (event : E) (context : C) (w : World) :
  counts_not_negative clients ->
  Forall (fun d => (0 <= Value d)%Z)
         (concat (batches_sent
                    (trace (lambda_handler clients environ event context w)))).
Proof.
  intros Hn. apply Forall_sent. now apply collected_not_negative.
Qed.

End MoreProperties.


(** ** The further properties, on scripted runs *)

Lemma In_range_witness : 0 < 20 /\ In 20 (range 0 41 20).
Proof.
  split; [lia|].
  apply (In_range 0 41 20 20); [lia|].
  split; [lia | reflexivity].
Defined.

Lemma points_sent_are_the_counts_logged_witness :
  Forall accepted
         (submissions
            (trace (lambda_handler Mock.all_well
                                   (Mock.environ Mock.twenty_one) tt tt 0))) /\
  concat (batches_sent
            (trace (lambda_handler Mock.all_well
                                   (Mock.environ Mock.twenty_one) tt tt 0)))
  = points_of (table_records
                 (trace (lambda_handler Mock.all_well
                                        (Mock.environ Mock.twenty_one)
                                        tt tt 0))).
Proof.
  assert (Ha : Forall accepted
                 (submissions
                    (trace (lambda_handler Mock.all_well
                              (Mock.environ Mock.twenty_one) tt tt 0))))
    by (vm_compute; repeat constructor).
  split; [exact Ha|].
  exact (proj2 (points_sent_are_the_counts_logged
                  Mock.all_well (Mock.environ Mock.twenty_one) tt tt 0) Ha).
Defined.

Lemma no_tables_iff_unset_or_empty_witness :
  (Mock.unset "TABLES"%string = None \/ Mock.unset "TABLES"%string = Some []) /\
  result (lambda_handler Mock.all_well Mock.unset tt tt 0)
  = inr [(lit "status", lit "no-tables")] /\
  world (lambda_handler Mock.all_well Mock.unset tt tt 0) = 0.
Proof.
  assert (Hu : Mock.unset "TABLES"%string = None
               \/ Mock.unset "TABLES"%string = Some [])
    by (left; reflexivity).
  assert (Hr : result (lambda_handler Mock.all_well Mock.unset tt tt 0)
               = inr [(lit "status", lit "no-tables")])
    by exact (proj2 (proj1 (no_tables_iff_unset_or_empty
                              Mock.all_well Mock.unset tt tt 0)) Hu).
  split; [exact Hu|]. split; [exact Hr|].
  exact (proj2 (proj2 (no_tables_iff_unset_or_empty
                         Mock.all_well Mock.unset tt tt 0) Hr)).
Defined.

Lemma publish_counts_reads_nonblank_entries_witness :
  nonblank (TABLES (Mock.environ " A , ,B"))
  = nonblank (TABLES (Mock.environ "A,B")) /\
  NAMESPACE (Mock.environ " A , ,B") = NAMESPACE (Mock.environ "A,B") /\
  publish_counts Mock.b_degraded (Mock.environ " A , ,B") 0
  = publish_counts Mock.b_degraded (Mock.environ "A,B") 0.
Proof.
  split; [reflexivity|]. split; [reflexivity|].
  exact (publish_counts_reads_nonblank_entries
           Mock.b_degraded (Mock.environ " A , ,B") (Mock.environ "A,B") 0
           eq_refl eq_refl).
Defined.

Lemma batches_before_the_last_are_full_witness :
  1 < ceil_div (successful_table_count
                  Mock.all_well (TABLES (Mock.environ Mock.twenty_one)) 0) 20 /\
  0 < length (batches_sent
                (trace (lambda_handler Mock.all_well
                                       (Mock.environ Mock.twenty_one) tt tt 0))) /\
  length (nth 0 (batches_sent
                   (trace (lambda_handler Mock.all_well
                                          (Mock.environ Mock.twenty_one)
                                          tt tt 0)))
              [])
  = 20.
Proof.
  assert (H1 : 1 < ceil_div (successful_table_count
                               Mock.all_well
                               (TABLES (Mock.environ Mock.twenty_one)) 0) 20)
    by (vm_compute; lia).
  assert (H2 : 0 < length (batches_sent
                             (trace (lambda_handler Mock.all_well
                                       (Mock.environ Mock.twenty_one)
                                       tt tt 0))))
    by (vm_compute; lia).
  split; [exact H1|]. split; [exact H2|].
  exact (batches_before_the_last_are_full
           Mock.all_well (Mock.environ Mock.twenty_one) tt tt 0 0 H1 H2).
Defined.

Lemma values_sent_are_not_negative_witness :
  counts_not_negative Mock.b_degraded /\
  Forall (fun d => (0 <= Value d)%Z)
         (concat (batches_sent
                    (trace (lambda_handler Mock.b_degraded
                                           (Mock.environ "A,B") tt tt 0)))).
Proof.
  assert (Hn : counts_not_negative Mock.b_degraded).
  { intros t w. split.
    - cbn. unfold Mock.b_breaks.
      destruct (str_eqb t (lit "B")); repeat constructor; discriminate.
    - intros resp H. cbn in H. injection H as <-. discriminate. }
  split; [exact Hn|].
  exact (values_sent_are_not_negative
           Mock.b_degraded (Mock.environ "A,B") tt tt 0 Hn).
Defined.
